(** * underscore_cpp: the combinators of [ffffff.h]

    A shallow embedding of the function objects of namespace [fff] and
    the properties they have.

    - [util]: the memoizing wrappers [Once_nv], [Once_v] and their maker
      [Once].  A wrapped callable acts on a world [W] and returns, throws
      or is undefined; the wrapper's [mutable] members are threaded
      explicitly.
    - [elem]: the ordered composition [Fconcat] / [MakeConcat], with
      overload resolution ([std::invocable]) made explicit.
    - [impl]: the policies ([PreallocCont], [NewCont], [MapExecution],
      [PushExecution]), the generic executor [Bloop] and the exported
      algorithms [Each], [Map], [Filter], [Reject], [LogicMake].
      Containers passed by reference live in a store indexed by address.
      A callable is a function of the element it is given; callables that
      write through a writable element, or that reach the store, have
      their own types and their own runs of the loops. *)

From stdpp Require Import base functions list.

Set Default Proof Using "Type".

(** ** Calls that may throw *)

(** What a call of a C++ function yields: it returns a value, it leaves
    by an exception, or its behaviour is undefined (it reads an object
    that was never given a value). *)
Inductive outcome (E A : Type) : Type :=
| Returns (a : A)
| Throws (e : E)
| Undefined.
Arguments Returns {E A} a.
Arguments Throws {E A} e.
Arguments Undefined {E A}.

(** ** namespace fff::impl::util *)
Module util.

Section once.
(** [W]: everything the wrapped callable can read and write (a counter it
    captured, say); [E]: what it may throw; [R]: [std::invoke_result_t<Fn>]
    when that is not [void]. *)
Context {W E R : Type}.

(** A zero-argument callable with result type [A]. *)
Definition Fn (A : Type) : Type := W → outcome E A * W.

(** [class Once_nv]: members [f], [flag], [memo]. [nv_memo] is [None]
    as long as [memo] holds no definite value. *)
Record Once_nv : Type := mk_Once_nv {
  nv_f : Fn R;
  nv_flag : bool;
  nv_memo : option R
}.

(** The constructors [Once_nv(const Fn &)] and [Once_nv(Fn &&)] initialise
    [f] and [flag(false)] only. [memo] is default-initialised: for a class
    type its default constructor gives it a value, [memo_init = Some v];
    for a scalar type nothing is stored and its value is indeterminate,
    [memo_init = None]. *)
Definition Once_nv_ctor (memo_init : option R) (f : Fn R) : Once_nv :=
  {| nv_f := f; nv_flag := false; nv_memo := memo_init |}.

(** [return memo;]: reading a [memo] that holds no definite value is
    undefined. *)
Definition read_memo (o : Once_nv) : outcome E R :=
  match nv_memo o with
  | Some v => Returns v
  | None => Undefined
  end.

(** [Once_nv::operator()]:
<<
    if (flag) { return memo; }
    flag = true;
    return memo = f();
>>
    The members are [mutable], so the call hands back the updated object
    together with the outcome and the world. When [f()] does not return,
    the assignment to [memo] does not take place; [flag] was set before. *)
Definition Once_nv_call (o : Once_nv) (w : W) : outcome E R * Once_nv * W :=
  if nv_flag o then (read_memo o, o, w)
  else
    let o1 := {| nv_f := nv_f o; nv_flag := true; nv_memo := nv_memo o |} in
    match nv_f o1 w with
    | (Returns r, w') =>
        (Returns r,
         {| nv_f := nv_f o1; nv_flag := nv_flag o1; nv_memo := Some r |}, w')
    | (Throws e, w') => (Throws e, o1, w')
    | (Undefined, w') => (Undefined, o1, w')
    end.

(** [class Once_v]: members [f], [flag]. *)
Record Once_v : Type := mk_Once_v {
  v_f : Fn unit;
  v_flag : bool
}.

Definition Once_v_ctor (f : Fn unit) : Once_v :=
  {| v_f := f; v_flag := false |}.

(** [Once_v::operator()]:
<<
    if (flag) { return; }
    flag = true;
    f();
>> *)
Definition Once_v_call (o : Once_v) (w : W) : outcome E unit * Once_v * W :=
  if v_flag o then (Returns (), o, w)
  else
    let o1 := {| v_f := v_f o; v_flag := true |} in
    match v_f o1 w with
    | (Returns _, w') => (Returns (), o1, w')
    | (Throws e, w') => (Throws e, o1, w')
    | (Undefined, w') => (Undefined, o1, w')
    end.

(** The argument of [Once::operator()], told apart the way
    [if constexpr (not std::is_void_v<std::invoke_result_t<F>>)] does. *)
Inductive invocable_F : Type :=
| non_void (f : Fn R)
| void (f : Fn unit).

(** What [Once::operator()] returns: a [Once_nv<F>] or a [Once_v<F>]. *)
Inductive wrapper : Type :=
| wrap_nv (o : Once_nv)
| wrap_v (o : Once_v).

(** [Once::operator()]. *)
Definition Once (memo_init : option R) (f : invocable_F) : wrapper :=
  match f with
  | non_void f => wrap_nv (Once_nv_ctor memo_init f)
  | void f => wrap_v (Once_v_ctor f)
  end.

(** Running the callable itself, result seen as [Some r] or, for a
    [void] callable, [None]. *)
Definition invoke (f : invocable_F) (w : W) : outcome E (option R) * W :=
  match f with
  | non_void f =>
      match f w with
      | (Returns r, w') => (Returns (Some r), w')
      | (Throws e, w') => (Throws e, w')
      | (Undefined, w') => (Undefined, w')
      end
  | void f =>
      match f w with
      | (Returns _, w') => (Returns None, w')
      | (Throws e, w') => (Throws e, w')
      | (Undefined, w') => (Undefined, w')
      end
  end.

(** [w()] for a wrapper [w] made by [once]. *)
Definition call (o : wrapper) (w : W) : outcome E (option R) * wrapper * W :=
  match o with
  | wrap_nv o =>
      match Once_nv_call o w with
      | (Returns r, o', w') => (Returns (Some r), wrap_nv o', w')
      | (Throws e, o', w') => (Throws e, wrap_nv o', w')
      | (Undefined, o', w') => (Undefined, wrap_nv o', w')
      end
  | wrap_v o =>
      match Once_v_call o w with
      | (Returns _, o', w') => (Returns None, wrap_v o', w')
      | (Throws e, o', w') => (Throws e, wrap_v o', w')
      | (Undefined, o', w') => (Undefined, wrap_v o', w')
      end
  end.

(** The [flag] member of a wrapper. *)
Definition flag (o : wrapper) : bool :=
  match o with
  | wrap_nv o => nv_flag o
  | wrap_v o => v_flag o
  end.

(** What a call yields once [flag] is set: the read of [memo], or a plain
    return for a [void] callable. *)
Definition cached (o : wrapper) : outcome E (option R) :=
  match o with
  | wrap_nv o =>
      match nv_memo o with
      | Some v => Returns (Some v)
      | None => Undefined
      end
  | wrap_v _ => Returns None
  end.

End once.

Arguments Once_nv : clear implicits.
Arguments Once_v : clear implicits.
Arguments invocable_F : clear implicits.
Arguments wrapper : clear implicits.

(** A callable that counts its invocations in the world and returns the
    count it reached. *)
Definition counting : Fn (W := nat) (E := unit) nat :=
  λ n, (Returns (S n), S n).

(** A callable that counts its invocations and throws every time. *)
Definition failing : Fn (W := nat) (E := unit) nat :=
  λ n, (Throws (), S n).

(** A [void] callable that throws the first time and returns afterwards. *)
Definition failing_first : Fn (W := nat) (E := unit) unit :=
  λ n, match n with
       | 0 => (Throws (), 1)
       | S _ => (Returns (), S n)
       end.


End util.

(** ** namespace fff::impl::elem *)
Module elem.

(** [CopyAt<0>::operator()]: [return t;] (the other arguments are ignored). *)
Definition copy {A : Type} (t : A) : A := t.

Section concat.
(** [sig]: the argument signatures [Args...] a call can have; [args s]:
    the argument packs of signature [s]; [W]: the world the callables act
    on. *)
Context {sig : Type} {args : sig → Type} {W : Type}.

(** A callable as overload resolution sees it: at a signature it is not
    invocable ([None]) or it has a call operator to run; [R s] is its
    [std::invoke_result_t] there. *)
Definition callable (R : sig → Type) : Type :=
  ∀ s : sig, option (args s → W → R s * W).

(** [std::invocable<Fn, Args...>]. *)
Definition invocable {R} (f : callable R) (s : sig) : bool :=
  match f s with
  | Some _ => true
  | None => false
  end.

(** [class Fconcat]: members [f_1], [f_2]; its four constructors copy or
    move the two callables in. *)
Record Fconcat (R1 R2 : sig → Type) : Type := mk_Fconcat {
  f_1 : callable R1;
  f_2 : callable R2
}.
Arguments mk_Fconcat {R1 R2} f_1 f_2.
Arguments f_1 {R1 R2} _.
Arguments f_2 {R1 R2} _.

(** The two [operator()] templates of [Fconcat]:
<<
    requires std::invocable<Fn_1, Args...>
      ... return f_1(std::forward<Args>(args)...);
    requires (not std::invocable<Fn_1, Args...> and std::invocable<Fn_2, Args...>)
      ... return f_2(std::forward<Args>(args)...);
>>
    The result is tagged with the overload that produced it. With neither
    constraint satisfied there is no viable overload: the [Fconcat] is not
    invocable at that signature. *)
Definition Fconcat_call {R1 R2} (g : Fconcat R1 R2)
  : callable (λ s, (R1 s + R2 s)%type) :=
  λ s,
    match f_1 g s with
    | Some run_1 => Some (λ a w, let '(r, w') := run_1 a w in (inl r, w'))
    | None =>
        match f_2 g s with
        | Some run_2 => Some (λ a w, let '(r, w') := run_2 a w in (inr r, w'))
        | None => None
        end
    end.

(** [MakeConcat::operator()(F1 &&, F2 &&)]. *)
Definition MakeConcat {R1 R2} (f1 : callable R1) (f2 : callable R2)
  : Fconcat R1 R2 :=
  mk_Fconcat f1 f2.

(** [MakeConcat::operator()(F1 &&, F2 &&, Fp &&...)] with one more
    callable: [Fconcat(f1, operator()(f2, f3))]. *)
Definition MakeConcat3 {R1 R2 R3}
    (f1 : callable R1) (f2 : callable R2) (f3 : callable R3)
  : Fconcat R1 (λ s, (R2 s + R3 s)%type) :=
  mk_Fconcat f1 (Fconcat_call (MakeConcat f2 f3)).

End concat.

Arguments callable {sig} args W R.
Arguments Fconcat {sig} args W R1 R2.
Arguments f_1 {sig args W R1 R2} _.
Arguments f_2 {sig args W R1 R2} _.

(** Two signatures to call with: one [int], or one [bool]. *)
Inductive sig2 : Type := of_int | of_bool.

Definition args2 (s : sig2) : Type :=
  match s with
  | of_int => nat
  | of_bool => bool
  end.

(** [[&log](auto x) { log.push_back(1); return 10; }]: accepts anything. *)
Definition first_any : callable args2 (list nat) (λ _, nat) :=
  λ s, Some (λ _ log, (10, log ++ [1])).

(** [[&log](int x) { log.push_back(2); return x + 1; }]; a [bool] converts
    to [int], so this is invocable with both signatures. *)
Definition second_int : callable args2 (list nat) (λ _, nat) :=
  λ s, match s return option (args2 s → list nat → nat * list nat) with
       | of_int => Some (λ (x : nat) log, (x + 1, log ++ [2]))
       | of_bool => Some (λ (b : bool) log, ((if b then 1 else 0) + 1, log ++ [2]))
       end.

(** An argument pack [t, args...] is the list of its values, taken in a
    type [V] wide enough for all of them.

    [IdentityAt<SZ>::operator()(T &&t, Args &&...args)]:
    [return IdentityAt<SZ - 1>()(std::forward<Args>(args)...);], and for
    [IdentityAt<0>]: [return std::forward<T>(t);]. Both templates take one
    argument at least: a call with none has no viable overload. *)
Fixpoint IdentityAt {V : Type} (SZ : nat) (pack : list V) : option V :=
  match pack with
  | [] => None
  | t :: args =>
      match SZ with
      | 0 => Some t
      | S SZ' => IdentityAt SZ' args
      end
  end.

(** [CopyAt<SZ>::operator()]: [return IdentityAt<SZ - 1>()(args...);]
    returned by value, and for [CopyAt<0>]: [return t;]. *)
Definition CopyAt {V : Type} (SZ : nat) (pack : list V) : option V :=
  match pack with
  | [] => None
  | t :: args =>
      match SZ with
      | 0 => Some t
      | S SZ' => IdentityAt SZ' args
      end
  end.

(** [Noop::operator()(Args &&...args)]: does nothing, returns nothing. *)
Definition Noop {V : Type} (pack : list V) : unit := ().

(** [AlwaysConstant<T>::Returns<t>::operator()(Args &&...args)]:
    [return t;]. *)
Definition Returns {T V : Type} (t : T) (pack : list V) : T := t.

(** [using AlwaysPositive = AlwaysConstant<bool>::Returns<true>;] *)
Definition AlwaysPositive {V : Type} : list V → bool := Returns true.
(** [using AlwaysNegative = AlwaysConstant<bool>::Returns<false>;] *)
Definition AlwaysNegative {V : Type} : list V → bool := Returns false.

(** Results of a chain nested to the left, tagged as those of the chain
    nested to the right. *)
Definition retag {A B C : Type} (r : (A + B) + C) : A + (B + C) :=
  match r with
  | inl (inl a) => inl a
  | inl (inr b) => inr (inl b)
  | inr c => inr (inr c)
  end.

End elem.

(** ** namespace fff::impl *)
Module impl.

(** Addresses of the containers the caller passes by reference. *)
Abbreviation loc := nat (only parsing).

(** What a call hands back, after the declared return type: nothing
    ([void]), a reference to the container at an address ([auto &],
    [T &&]), or an object of its own ([auto], [bool]). *)
Inductive returned (A : Type) : Type :=
| Void
| Ref (l : loc)
| Val (a : A).
Arguments Void {A}.
Arguments Ref {A} l.
Arguments Val {A} a.

(** A container is seen as the sequence of its elements from [begin()] to
    [end()]; the store gives the container at each address. A callable
    handed to an algorithm is seen as the function it computes on an
    element: [Map], [Filter], [Reject] and [LogicMake] pass it a reference
    to a [const] element; [Each] passes a reference it can write through. *)
Abbreviation store T := (loc → list T) (only parsing).

(** [tmf::DefaultConstructible<U>]: [U()] exists; [value_init] is that
    value. *)
Class DefaultConstructible (U : Type) : Type := value_init : U.

(** A class template [C] whose [C<T>] the algorithms accept. [Each],
    [Map], [Filter], [FilterWith], [Reject], [LogicMake], [MapExecution]
    and [PushExecution] are declared
    [noexcept(noexcept(func(cont[0])))], so a call is well-formed only for
    a container type with [operator[]]: [subscript] is that operator
    ([None] past the last element). A container type without it
    ([std::list], [std::set], [std::unordered_set]) is no instance: the
    algorithms do not compile for it.

    What [PushPolicy] asks through [us_tmf.h], which is not among the
    sources, is taken as parameters: the concepts [tmf::BackPushable<C>]
    and [tmf::Insertable<C>], and what [res_cont.insert(val)] does to a
    [C<T>]. *)
Class Cont_template (T : Type) : Type := {
  subscript : list T → nat → option T;
  BackPushable : bool;
  Insertable : bool;
  insert : list T → T → list T
}.

(** [res_cont.push_back(val)] of a sequence container. *)
Definition push_back {T : Type} (res_cont : list T) (val : T) : list T :=
  res_cont ++ [val].

(** [*it = v], the iterator [it] given by its distance from [begin()].
    Writing through [end()] or past it is undefined: no result. *)
Definition assign {U : Type} (cont : list U) (it : nat) (v : U)
  : option (list U) :=
  if decide (it < length cont) then Some (<[it := v]> cont) else None.

Section policies.
Context {T : Type}.

(** [PreallocCont::operator()]: [std::array<U, N>()] for a
    [std::array<T, N>], [C<U>(cont.size())] for a [C<T>]; either way
    [cont.size()] value-initialised elements. *)
Definition PreallocCont {U : Type} `{!DefaultConstructible U}
    (cont : list T) (func : T → U) : list U :=
  replicate (length cont) value_init.

(** [NewCont::operator()]: [return Cont();], empty for the container types
    [PushPolicy] has an overload for (a [std::array], whose [Cont()] is not
    empty, matches neither [C<T>] pattern there). *)
Definition NewCont {FuncObj : Type} (cont : list T) (funcObj : FuncObj)
  : list T :=
  [].

(** The loop of [MapExecution::operator()]:
<<
    while (it_t != t_cont.end()) {
        *it_u = func( *it_t );
        ++it_t; ++it_u;
    }
>>
    [it_t] is given by what lies between it and [t_cont.end()]. *)
Fixpoint MapExecution_while {U : Type} (func : T → U)
    (it_t : list T) (it_u : nat) (u_cont : list U) : option (list U) :=
  match it_t with
  | [] => Some u_cont
  | x :: it_t' =>
      u_cont' ← assign u_cont it_u (func x);
      MapExecution_while func it_t' (S it_u) u_cont'
  end.

(** [MapExecution::operator()]: the iterators start at [begin()];
    [u_cont] is filled in place and handed back. *)
Definition MapExecution {U : Type}
    (u_cont : list U) (t_cont : list T) (func : T → U) : option (list U) :=
  MapExecution_while func t_cont 0 u_cont.

Context `{!Cont_template T}.

(** [PushExecution::PushPolicy::operator()], two overloads:
<<
    requires tmf::BackPushable<C>
      ... res_cont.push_back(val);
    requires (not tmf::BackPushable<C> and tmf::Insertable<C>)
      ... res_cont.insert(val);
>>
    With neither constraint satisfied the call is ill-formed. *)
Definition PushExecution_PushPolicy (res_cont : list T) (val : T)
  : option (list T) :=
  if BackPushable then Some (push_back res_cont val)
  else if Insertable then Some (insert res_cont val)
  else None.

(** The loop of [PushExecution::operator()]:
<<
    for (const auto &t : var_cont) {
        if (func(t)) { PushPolicy()(res_cont, t); }
    }
>> *)
Fixpoint PushExecution_for (func : T → bool)
    (var_cont : list T) (res_cont : list T) : option (list T) :=
  match var_cont with
  | [] => Some res_cont
  | t :: var_cont' =>
      if func t then
        res_cont' ← PushExecution_PushPolicy res_cont t;
        PushExecution_for func var_cont' res_cont'
      else PushExecution_for func var_cont' res_cont
  end.

(** [PushExecution::operator()]. *)
Definition PushExecution
    (res_cont : list T) (var_cont : list T) (func : T → bool)
  : option (list T) :=
  PushExecution_for func var_cont res_cont.

End policies.

Section algorithms.
Context {T : Type}.

(** [std::ranges::for_each(cont, func)] with [func] taking
    [value_type &]: run on an element holding [x], [func] leaves
    [(func x).1] in it and returns [(func x).2], which [for_each] drops. *)
Fixpoint for_each {R : Type} (cont : list T) (func : T → T * R) : list T :=
  match cont with
  | [] => []
  | x :: cont' => (func x).1 :: for_each cont' func
  end.

(** [Each::operator()(Cont &cont, const FuncObj &func)], declared
    [void]. *)
Definition Each {R : Type} (cont : loc) (func : T → T * R) (σ : store T)
  : returned (list T) * store T :=
  (Void, <[cont := for_each (σ cont) func]> σ).

(** The loop in [Map::operator()], the same text as in [MapExecution]
    with [cont], [ret] for [t_cont], [u_cont]. *)
Fixpoint Map_while {U : Type} (func : T → U)
    (it_t : list T) (it_u : nat) (ret : list U) : option (list U) :=
  match it_t with
  | [] => Some ret
  | x :: it_t' =>
      ret' ← assign ret it_u (func x);
      Map_while func it_t' (S it_u) ret'
  end.

(** [Map::operator()(const Cont &cont, const FuncObj &func)]:
<<
    auto ret = PreallocCont()(cont, func);
    { ... the loop ... }
    return ret;
>> *)
Definition Map {U : Type} `{!DefaultConstructible U}
    (cont : loc) (func : T → U) (σ : store T)
  : option (returned (list U) * store T) :=
  let ret := PreallocCont (σ cont) func in
  ret' ← Map_while func (σ cont) 0 ret;
  Some (Val ret', σ).

Context `{!Cont_template T}.

(** [Filter::PushPolicy::operator()], the same two overloads as in
    [PushExecution::PushPolicy]. *)
Definition Filter_PushPolicy (res_cont : list T) (val : T)
  : option (list T) :=
  if BackPushable then Some (push_back res_cont val)
  else if Insertable then Some (insert res_cont val)
  else None.

(** The loop in [Filter::operator()]:
<<
    for (const auto &v : cont) {
        if (func(v)) { PushPolicy()(ret, v); }
    }
>> *)
Fixpoint Filter_for (func : T → bool) (cont : list T) (ret : list T)
  : option (list T) :=
  match cont with
  | [] => Some ret
  | v :: cont' =>
      if func v then
        ret' ← Filter_PushPolicy ret v;
        Filter_for func cont' ret'
      else Filter_for func cont' ret
  end.

(** [Filter::operator()(const Cont &cont, const FuncObj &func)]:
<<
    auto ret = NewCont()(cont, elem::copy);
    ... the loop ...
    return ret;
>>
    Its exception specification, [noexcept(noexcept(func(cont[0])))],
    makes the call ill-formed for a container type without [operator[]];
    a [Cont_template] has one. *)
Definition Filter (cont : loc) (func : T → bool) (σ : store T)
  : option (returned (list T) * store T) :=
  let ret := NewCont (σ cont) (@elem.copy T) in
  ret' ← Filter_for func (σ cont) ret;
  Some (Val ret', σ).

(** [std::not_fn(func)]. *)
Definition not_fn (func : T → bool) : T → bool := λ x, negb (func x).

(** [Reject::operator()]: [return Filter()(cont, std::not_fn(func));]. *)
Definition Reject (cont : loc) (func : T → bool) (σ : store T)
  : option (returned (list T) * store T) :=
  Filter cont (not_fn func) σ.

End algorithms.

Section quantifiers.
Context {T : Type}.

(** The body of [LogicMake<func_ret, ret>::operator()]:
<<
    for (auto &v : cont) {
        if (static_cast<bool>(func(v)) == func_ret) { return ret; }
    }
    return not ret;
>> *)
Fixpoint LogicMake_for (func_ret ret : bool) (func : T → bool)
    (cont : list T) : bool :=
  match cont with
  | [] => negb ret
  | v :: cont' =>
      if eqb (func v) func_ret then ret
      else LogicMake_for func_ret ret func cont'
  end.

(** [LogicMake<func_ret, ret>::operator()(const Cont &, const FuncObj &)]. *)
Definition LogicMake (func_ret ret : bool)
    (cont : loc) (func : T → bool) (σ : store T)
  : returned bool * store T :=
  (Val (LogicMake_for func_ret ret func (σ cont)), σ).

End quantifiers.

Section bloop.
Context {T FuncObj RetCont : Type}.

(** [Bloop<ANewDataPolicy, AnExecutionPolicy>::operator()(Cont &cont,
    const FuncObj &func)]:
<<
    decltype(auto) ret = ANewDataPolicy()(cont, func);
    AnExecutionPolicy()(ret, cont, func);
    return ret;
>>
    for a data policy that returns a container of its own, as
    [PreallocCont] and [NewCont] do. The execution policy fills [ret]
    through its first parameter; the return type [auto] makes the result
    an object of its own. *)
Definition Bloop
    (ANewDataPolicy : list T → FuncObj → RetCont)
    (AnExecutionPolicy : RetCont → list T → FuncObj → option RetCont)
    (cont : loc) (func : FuncObj) (σ : store T)
  : option (returned RetCont * store T) :=
  let ret := ANewDataPolicy (σ cont) func in
  ret' ← AnExecutionPolicy ret (σ cont) func;
  Some (Val ret', σ).

End bloop.

(** [using BloopMap = Bloop<PreallocCont, MapExecution>;] *)
Definition BloopMap {T U : Type} `{!DefaultConstructible U}
  : loc → (T → U) → store T → option (returned (list U) * store T) :=
  Bloop PreallocCont MapExecution.

(** [using BloopFilter = Bloop<NewCont, PushExecution>;] *)
Definition BloopFilter {T : Type} `{!Cont_template T}
  : loc → (T → bool) → store T → option (returned (list T) * store T) :=
  Bloop NewCont PushExecution.

Section more_algorithms.
Context {T : Type}.

(** [FilterWith<FuncObj>::operator()(Cont &cont)]:
    [return Filter()(cont, FuncObj());], [FuncObj()] being the
    default-constructed callable. *)
Definition FilterWith `{!Cont_template T} (FuncObj_ctor : T → bool)
    (cont : loc) (σ : store T)
  : option (returned (list T) * store T) :=
  Filter cont FuncObj_ctor σ.

(** The loop of [MapExecution::operator()] when [u_cont] and [t_cont] are
    the same container, as in [Bloop<IdentityAt<0>, MapExecution>]: [it_t]
    and [it_u] stand at the same place [it] of it. [func] gets a reference
    to the element, not [const]: run on an element holding [x] it leaves
    [(func x).1] there and returns [(func x).2], which the assignment
    then puts in the element. [remaining] is the distance from [it_t] to
    [t_cont.end()]; no step changes the size of the container. *)
Fixpoint MapExecution_aliased_while (func : T → T * T)
    (remaining : nat) (it : nat) (cont : list T) : option (list T) :=
  match remaining with
  | 0 => Some cont
  | S remaining' =>
      x ← cont !! it;
      cont1 ← assign cont it (func x).1;
      cont2 ← assign cont1 it (func x).2;
      MapExecution_aliased_while func remaining' (S it) cont2
  end.

(** [using BloopEach = Bloop<IdentityAt<0>, MapExecution>;]
<<
    decltype(auto) ret = ANewDataPolicy()(cont, func);
    AnExecutionPolicy()(ret, cont, func);
    return ret;
>>
    [IdentityAt<0>()(cont, func)] is [cont] itself, so [ret] is a
    reference to the caller's container and [MapExecution] works in it;
    the return type [auto] makes the result a copy. *)
Definition BloopEach (cont : loc) (func : T → T * T) (σ : store T)
  : option (returned (list T) * store T) :=
  ret ← MapExecution_aliased_while func (length (σ cont)) 0 (σ cont);
  Some (Val ret, <[cont := ret]> σ).

End more_algorithms.

Section writable_elements.
Context {T U : Type}.

(** A callable that tells a [const] element from a writable one (two call
    operators overloaded on it, or one that takes [auto &&]): for a
    [const] element holding [x] it returns [on_const x]; run on a writable
    element holding [x] it leaves [(on_writable x).1] there and returns
    [(on_writable x).2]. A callable with one call operator that takes its
    argument by value or by reference to [const] has
    [on_writable x = (x, on_const x)]. *)
Record overloaded : Type := mk_overloaded {
  on_const : T → U;
  on_writable : T → T * U
}.

(** The loop of [MapExecution::operator()] as [Bloop] runs it on a
    callable of this kind: [Bloop::operator()] takes [Cont &cont] and
    [MapExecution] takes [T_cont &t_cont], so [func( *it_t )] is handed a
    writable element. The loop gives back [u_cont] and the elements of
    [t_cont] from [it_t] on as it leaves them. *)
Fixpoint MapExecution_writable_while (func : overloaded)
    (it_t : list T) (it_u : nat) (u_cont : list U)
  : option (list U * list T) :=
  match it_t with
  | [] => Some (u_cont, [])
  | x :: it_t' =>
      u_cont' ← assign u_cont it_u (on_writable func x).2;
      r ← MapExecution_writable_while func it_t' (S it_u) u_cont';
      Some (r.1, (on_writable func x).1 :: r.2)
  end.

(** [Bloop<PreallocCont, MapExecution>::operator()] on a callable of this
    kind. [PreallocCont] names [std::invoke_result_t<FuncObj, T>], the
    result type for an rvalue, and does not call [func]. *)
Definition BloopMap_writable `{!DefaultConstructible U}
    (cont : loc) (func : overloaded) (σ : store T)
  : option (returned (list U) * store T) :=
  let ret := PreallocCont (σ cont) (on_const func) in
  r ← MapExecution_writable_while func (σ cont) 0 ret;
  Some (Val r.1, <[cont := r.2]> σ).

End writable_elements.
Arguments overloaded : clear implicits.

Section reaching_callables.
Context {T : Type}.

(** A callable that reaches the caller's containers, as a lambda that
    captured one of them by reference does: run on a [const] element
    holding [x] with the containers as in [σ], it returns [(func x σ).1]
    and leaves the containers as in [(func x σ).2]. *)
Definition reaching (R : Type) : Type := T → store T → R * store T.

(** The loop in [Map::operator()] with such a callable. [it_t] and [it_u]
    stand at the same distance [it] from [begin()]; the element is read
    from the container as it is at that moment; [remaining] is the
    distance from [it_t] to [cont.end()]. A callable that changes the size
    of [cont] invalidates iterators of the loop (all of them when a
    [std::vector] reallocates): undefined. *)
Fixpoint Map_while_reaching {U : Type} (func : reaching U) (cont : loc)
    (remaining it : nat) (ret : list U) (σ : store T)
  : option (list U * store T) :=
  match remaining with
  | 0 => Some (ret, σ)
  | S remaining' =>
      x ← σ cont !! it;
      let σ' := (func x σ).2 in
      if decide (length (σ' cont) = length (σ cont)) then
        ret' ← assign ret it (func x σ).1;
        Map_while_reaching func cont remaining' (S it) ret' σ'
      else None
  end.

(** [Map::operator()] with such a callable. *)
Definition Map_reaching {U : Type} `{!DefaultConstructible U}
    (cont : loc) (func : reaching U) (σ : store T)
  : option (returned (list U) * store T) :=
  let ret := PreallocCont (σ cont) (λ x, (func x σ).1) in
  r ← Map_while_reaching func cont (length (σ cont)) 0 ret σ;
  Some (Val r.1, r.2).

(** The loop in [Filter::operator()] with such a callable: [v] is a
    reference to the element, so what is pushed is what the element holds
    after [func(v)]. *)
Fixpoint Filter_for_reaching `{!Cont_template T} (func : reaching bool)
    (cont : loc) (remaining it : nat) (ret : list T) (σ : store T)
  : option (list T * store T) :=
  match remaining with
  | 0 => Some (ret, σ)
  | S remaining' =>
      x ← σ cont !! it;
      let σ' := (func x σ).2 in
      if decide (length (σ' cont) = length (σ cont)) then
        if (func x σ).1 then
          v ← σ' cont !! it;
          ret' ← Filter_PushPolicy ret v;
          Filter_for_reaching func cont remaining' (S it) ret' σ'
        else Filter_for_reaching func cont remaining' (S it) ret σ'
      else None
  end.

(** [Filter::operator()] with such a callable. *)
Definition Filter_reaching `{!Cont_template T}
    (cont : loc) (func : reaching bool) (σ : store T)
  : option (returned (list T) * store T) :=
  let ret := NewCont (σ cont) (@elem.copy T) in
  r ← Filter_for_reaching func cont (length (σ cont)) 0 ret σ;
  Some (Val r.1, r.2).

(** [std::not_fn(func)] of such a callable. *)
Definition not_fn_reaching (func : reaching bool) : reaching bool :=
  λ x σ, (negb (func x σ).1, (func x σ).2).

(** [Reject::operator()] with such a callable. *)
Definition Reject_reaching `{!Cont_template T}
    (cont : loc) (func : reaching bool) (σ : store T)
  : option (returned (list T) * store T) :=
  Filter_reaching cont (not_fn_reaching func) σ.

(** The loop of [LogicMake<func_ret, ret>::operator()] with such a
    callable. *)
Fixpoint LogicMake_for_reaching (func_ret ret : bool) (func : reaching bool)
    (cont : loc) (remaining it : nat) (σ : store T)
  : option (bool * store T) :=
  match remaining with
  | 0 => Some (negb ret, σ)
  | S remaining' =>
      x ← σ cont !! it;
      let σ' := (func x σ).2 in
      if decide (length (σ' cont) = length (σ cont)) then
        if eqb (func x σ).1 func_ret then Some (ret, σ')
        else LogicMake_for_reaching func_ret ret func cont remaining' (S it) σ'
      else None
  end.

(** [LogicMake<func_ret, ret>::operator()] with such a callable. *)
Definition LogicMake_reaching (func_ret ret : bool)
    (cont : loc) (func : reaching bool) (σ : store T)
  : option (returned bool * store T) :=
  r ← LogicMake_for_reaching func_ret ret func cont (length (σ cont)) 0 σ;
  Some (Val r.1, r.2).

End reaching_callables.

End impl.

(** ** namespace fff: the exported function objects *)
Module fff.

Definition each {T R : Type} := @impl.Each T R.
Definition map {T U : Type} `{!impl.DefaultConstructible U} := @impl.Map T U _.
Definition filter {T : Type} `{!impl.Cont_template T} := @impl.Filter T _.
Definition reject {T : Type} `{!impl.Cont_template T} := @impl.Reject T _.

(** [using Some = LogicMake<true, true>;] *)
Definition some {T : Type} := @impl.LogicMake T true true.
(** [using Every = LogicMake<false, false>;] *)
Definition every {T : Type} := @impl.LogicMake T false false.
(** [using None = LogicMake<true, false>;] *)
Definition none {T : Type} := @impl.LogicMake T true false.

Definition once {W E R : Type} := @util.Once W E R.
Definition make_concat {sig : Type} {args : sig → Type} {W : Type}
    {R1 R2 : sig → Type} :=
  @elem.MakeConcat sig args W R1 R2.

(** [inline impl::AlwaysPositive always_positive;] called with one
    argument, an element. *)
Definition always_positive {T : Type} (x : T) : bool :=
  elem.AlwaysPositive [x].
Definition identity_at {V : Type} := @elem.IdentityAt V.
Definition copy_at {V : Type} := @elem.CopyAt V.

End fff.

(** ** namespace impl::lab *)
Module lab.

(** [Conditional<Validator, FuncObj_T, FuncObj_F>::operator()]:
<<
    if (Validator()(std::forward<Args>(args)...)) {
        return FuncObj_T()(std::forward<Args>(args)...);
    } else {
        return FuncObj_F()(std::forward<Args>(args)...);
    }
>>
    the three function objects default-constructed at each call; the
    [requires] clause wants the two branches to have the same result
    type. *)
Definition Conditional {A R : Type}
    (Validator : A → bool) (FuncObj_T FuncObj_F : A → R) (args : A) : R :=
  if Validator args then FuncObj_T args else FuncObj_F args.

End lab.

(** ** Container class templates to run the algorithms on *)
Module std.

(** [std::vector], [std::deque]: [operator[]] and [push_back], and no
    [insert(val)]. *)
Definition vector (T : Type) : impl.Cont_template T :=
  {| impl.subscript := λ c n, c !! n;
     impl.BackPushable := true;
     impl.Insertable := false;
     impl.insert := λ c _, c |}.

(** [unsigned()] is [0]. *)
Definition unsigned_default : impl.DefaultConstructible nat := 0.

(** A caller with the sequence [1, 2, 3, 4] at address [0] and [7, 7] at
    address [1]. *)
Definition two_containers : impl.store nat :=
  λ l, match l with
       | 0 => [1; 2; 3; 4]
       | 1 => [7; 7]
       | _ => []
       end.

Definition is_even (x : nat) : bool := Nat.even x.
Definition twice (x : nat) : nat := 2 * x.

(** [[](unsigned &x) { x *= 2; }]: doubles the element, returns nothing. *)
Definition double_in_place (x : nat) : nat * unit := (2 * x, ()).

(** [[](unsigned x) { return 2 * x; }]: takes a copy; the element keeps its
    value. *)
Definition double_by_value (x : nat) : nat * nat := (x, 2 * x).

(** [[&d](unsigned x) { d.push_back(x); return 2 * x; }], [d] the container
    at address [1]. *)
Definition logging_twice : impl.reaching nat :=
  λ x σ, (2 * x, <[1 := σ 1 ++ [x]]> σ).

(** [[&d](unsigned x) { d.push_back(x); return x % 2 == 0; }]. *)
Definition logging_is_even : impl.reaching bool :=
  λ x σ, (Nat.even x, <[1 := σ 1 ++ [x]]> σ).

(** [[&c](unsigned x) { c[3] = 0; return 2 * x; }], [c] the container at
    address [0]. *)
Definition clobbering_twice : impl.reaching nat :=
  λ x σ, (2 * x, <[0 := <[3 := 0]> (σ 0)]> σ).

(** A callable [struct { unsigned operator()(unsigned &x) const
    { x = 0; return 1; } unsigned operator()(const unsigned &) const
    { return 2; } }]. *)
Definition const_aware : impl.overloaded nat nat :=
  {| impl.on_const := λ _, 2; impl.on_writable := λ _, (0, 1) |}.

End std.

(** * Properties *)

(** ** The memoizing wrapper *)
Section once_properties.
Context {W E R : Type}.
Implicit Types (f : util.invocable_F W E R) (o : util.wrapper W E R) (w : W).

(** A wrapper whose flag is set takes the branch [if (flag)]: it runs
    nothing, and yields the read of [memo]. *)
Lemma call_flag_set o w :
  util.flag o = true → util.call o w = (util.cached o, o, w).
Proof.
  destruct o as [o|o]; simpl; intros Hflag.
  - unfold util.Once_nv_call, util.read_memo. rewrite Hflag.
    by destruct (util.nv_memo o).
  - unfold util.Once_v_call. by rewrite Hflag.
Qed.

(** The first call of a fresh wrapper when the callable returns. *)
Lemma call_fresh_returns memo_init f w0 w1 r :
  util.invoke f w0 = (Returns r, w1) →
  ∃ o1, util.call (util.Once memo_init f) w0 = (Returns r, o1, w1)
        ∧ util.flag o1 = true ∧ util.cached o1 = Returns r.
Proof.
  destruct f as [f|f]; simpl; unfold util.Once_nv_call, util.Once_v_call; simpl;
    destruct (f w0) as [[a|e|] w'] eqn:Hf; intros [= <- <-]; eauto.
Qed.

(** The first call of a fresh wrapper when the callable throws. *)
Lemma call_fresh_throws memo_init f w0 w1 e :
  util.invoke f w0 = (Throws e, w1) →
  ∃ o1, util.call (util.Once memo_init f) w0 = (Throws e, o1, w1)
        ∧ util.flag o1 = true
        ∧ util.cached o1 = util.cached (util.Once memo_init f).
Proof.
  destruct f as [f|f]; simpl; unfold util.Once_nv_call, util.Once_v_call; simpl;
    destruct (f w0) as [[a|e'|] w'] eqn:Hf; intros [= <- <-]; eauto.
Qed.

(** C1, as the code has it: when the first call of [fn] throws, the
    exception reaches the caller of the wrapper, and the flag is set all
    the same (it is set before [fn] runs). So the next call of the wrapper,
    and every later one, does not run [fn] again: it takes the branch
    [if (flag)], which leaves the wrapper and the world as they are and
    does nothing but [return memo;] (a plain [return;] for a [void]
    callable); [memo] is as the constructor left it, and reading it is
    undefined where that gave it no value. *)
Theorem once_throw_is_not_retried memo_init f w0 w1 e :
  util.invoke f w0 = (Throws e, w1) →
  ∃ o1, util.call (fff.once memo_init f) w0 = (Throws e, o1, w1)
        ∧ util.flag o1 = true
        ∧ ∀ w, util.call o1 w
               = (util.cached (fff.once memo_init f), o1, w).
Proof.
  intros Hf. unfold fff.once.
  destruct (call_fresh_throws memo_init f w0 w1 e Hf)
    as (o1 & Hcall & Hflag & Hmemo).
  exists o1. split_and!; [done..|].
  intros w. rewrite <- Hmemo. by apply call_flag_set.
Qed.

(** C8: when [f] returns, three calls of [w = once(f)] run [f] once: the
    first call leaves the world as one run of [f] does, the second and
    the third leave it as it is, and the three calls return the same
    value, the one [f] returned. *)
Theorem once_three_calls memo_init f w0 w1 r :
  util.invoke f w0 = (Returns r, w1) →
  ∃ o1 o2 o3,
    util.call (fff.once memo_init f) w0 = (Returns r, o1, w1)
    ∧ util.call o1 w1 = (Returns r, o2, w1)
    ∧ util.call o2 w1 = (Returns r, o3, w1).
Proof.
  intros Hf. unfold fff.once.
  destruct (call_fresh_returns memo_init f w0 w1 r Hf)
    as (o1 & Hcall & Hflag & Hmemo).
  assert (util.call o1 w1 = (Returns r, o1, w1)) as Hagain.
  { rewrite <- Hmemo. by apply call_flag_set. }
  by exists o1, o1, o1.
Qed.

End once_properties.

(** [once_throw_is_not_retried] on a callable with result type [unsigned]
    that always throws: the later calls read a [memo] that was never given
    a value. *)
Lemma once_throw_is_not_retried_witness :
  ∃ o1, util.call (fff.once None (util.non_void util.failing)) 0
        = (Throws (), o1, 1)
        ∧ util.flag o1 = true
        ∧ ∀ w, util.call o1 w = (Undefined, o1, w).
Proof.
  exact (once_throw_is_not_retried None (util.non_void util.failing) 0 1 ()
           eq_refl).
Defined.

(** C1 as stated fails: [failing] throws on the first call of the wrapper;
    were the flag left unset and the next call a retry, that call would run
    [failing] again, which moves the world from [1] to [2]. *)
Lemma once_retry_counterexample :
  ¬ (∀ e w1, util.invoke (util.non_void util.failing) 0 = (Throws e, w1) →
       ∃ o1, util.call (fff.once None (util.non_void util.failing)) 0
             = (Throws e, o1, w1)
             ∧ util.flag o1 = false
             ∧ ∀ r w2, util.invoke (util.non_void util.failing) w1 = (r, w2) →
                 ∃ o2, util.call o1 w1 = (r, o2, w2)).
Proof.
  intros Hclaim.
  destruct (Hclaim () 1 eq_refl) as (o1 & Hcall & Hflag & _).
  vm_compute in Hcall. injection Hcall as <-. discriminate Hflag.
Qed.

(** A [void] callable that would return on a second run is not given one:
    after the call that threw, the wrapper returns at once and the world
    stays at [1]. *)
Example once_void_no_second_run :
  ∃ o1, util.call (fff.once (@None nat) (util.void util.failing_first)) 0
        = (Throws (), o1, 1)
        ∧ util.call o1 1 = (Returns None, o1, 1)
        ∧ util.failing_first 1 = (Returns (), 2).
Proof. by eexists. Qed.

(** [once_three_calls] on a callable that counts its runs: the counter
    ends at [1] and the three calls return [1]. *)
Lemma once_three_calls_witness :
  ∃ o1 o2 o3,
    util.call (fff.once None (util.non_void util.counting)) 0
    = (Returns (Some 1), o1, 1)
    ∧ util.call o1 1 = (Returns (Some 1), o2, 1)
    ∧ util.call o2 1 = (Returns (Some 1), o3, 1).
Proof.
  exact (once_three_calls None (util.non_void util.counting) 0 1 (Some 1)
           eq_refl).
Defined.

(** ** The ordered composition *)
Section concat_properties.
Context {sig : Type} {args : sig → Type} {W : Type} {R1 R2 : sig → Type}.
Context (f1 : elem.callable args W R1) (f2 : elem.callable args W R2).

(** The composition is invocable where one of the two callables is. *)
Lemma invocable_Fconcat s :
  elem.invocable (elem.Fconcat_call (elem.MakeConcat f1 f2)) s
  = elem.invocable f1 s || elem.invocable f2 s.
Proof.
  unfold elem.invocable, elem.Fconcat_call; simpl.
  by destruct (f1 s), (f2 s).
Qed.

(** Where the first callable is invocable, the first overload is the one
    chosen, whatever the second callable is. *)
Lemma Fconcat_call_first s run_1 :
  f1 s = Some run_1 →
  elem.Fconcat_call (elem.MakeConcat f1 f2) s
  = Some (λ a w, let '(r, w') := run_1 a w in (inl r, w')).
Proof. unfold elem.Fconcat_call; simpl. by intros ->. Qed.

(** Where the first callable is not invocable, the second one runs. *)
Lemma Fconcat_call_second s run_2 :
  f1 s = None → f2 s = Some run_2 →
  elem.Fconcat_call (elem.MakeConcat f1 f2) s
  = Some (λ a w, let '(r, w') := run_2 a w in (inr r, w')).
Proof. unfold elem.Fconcat_call; simpl. by intros -> ->. Qed.

(** In a chain of three whose first callable is not invocable, the second
    one runs when it is invocable, whatever the third is. *)
Lemma MakeConcat3_second {R3 : sig → Type} (f3 : elem.callable args W R3)
    s run_2 :
  f1 s = None → f2 s = Some run_2 →
  elem.Fconcat_call (elem.MakeConcat3 f1 f2 f3) s
  = Some (λ a w, let '(r, w') :=
                   (let '(r, w') := run_2 a w in (inl r, w')) in
                 (inr r, w')).
Proof.
  intros Hf1 Hf2.
  unfold elem.MakeConcat3, elem.MakeConcat, elem.Fconcat_call. simpl.
  by rewrite Hf1, Hf2.
Qed.

(** C7: when [f1] and [f2] are both invocable with a signature, calling
    [g = make_concat(f1, f2)] with arguments [x] of that signature is
    calling [f1]: [g(x)] is the value [f1(x)] returns, produced by the
    first overload, and the world after the call is the one [f1] alone
    leaves; [f2] is not run. *)
Theorem make_concat_first_match s :
  elem.invocable f1 s = true → elem.invocable f2 s = true →
  ∃ run_1 g,
    f1 s = Some run_1
    ∧ elem.Fconcat_call (fff.make_concat f1 f2) s = Some g
    ∧ ∀ x w, g x w = (inl (run_1 x w).1, (run_1 x w).2).
Proof.
  unfold elem.invocable, fff.make_concat. intros H1 _.
  destruct (f1 s) as [run_1|] eqn:Hf1; [|done].
  eexists run_1, _. split_and!; [done|by apply Fconcat_call_first|].
  intros x w. simpl. by destruct (run_1 x w).
Qed.

End concat_properties.

(** [make_concat_first_match] on two callables that log their runs: called
    with an [int], the composition returns what the first one returns and
    the log shows the first one only. *)
Lemma make_concat_first_match_witness :
  ∃ run_1 g,
    elem.first_any elem.of_int = Some run_1
    ∧ elem.Fconcat_call (fff.make_concat elem.first_any elem.second_int)
        elem.of_int = Some g
    ∧ (∀ x w, g x w = (inl (run_1 x w).1, (run_1 x w).2))
    ∧ g 5 [] = (inl 10, [1]).
Proof.
  destruct (make_concat_first_match elem.first_any elem.second_int
              elem.of_int eq_refl eq_refl) as (run_1 & g & H1 & Hg & Hrun).
  exists run_1, g. split_and!; [done..|].
  rewrite Hrun. injection H1 as <-. reflexivity.
Defined.

(** ** Transforming: [map] *)
Section map_properties.
Context {T U : Type} `{!impl.DefaultConstructible U}.
Implicit Types (func : T → U) (σ : impl.store T) (ret : list U).

(** An assignment through an iterator before [end()] is defined. *)
Lemma assign_in_range ret it v :
  it < length ret → impl.assign ret it v = Some (<[it := v]> ret).
Proof. intros Hlt. unfold impl.assign. by rewrite decide_True. Qed.

(** Loop invariant of [Map]: with as many places from [it_u] on as there
    are elements from [it_t] on, the loop ends, the places before [it_u]
    keep their values and the others take the images of the elements. *)
Lemma Map_while_fills func it_t : ∀ it_u ret,
  length ret = it_u + length it_t →
  impl.Map_while func it_t it_u ret = Some (take it_u ret ++ (func <$> it_t)).
Proof.
  induction it_t as [|x it_t IH]; intros it_u ret Hlen; simpl in *.
  - rewrite app_nil_r, take_ge by lia. done.
  - rewrite assign_in_range by lia. simpl.
    rewrite IH by (rewrite length_insert; lia).
    f_equal.
    rewrite (take_S_r _ _ (func x))
      by (apply list_lookup_insert_eq; lia).
    rewrite take_insert_ge by lia. by rewrite <- app_assoc.
Qed.

(** The loop written out in [Map] and the one of [MapExecution] compute
    the same. *)
Lemma MapExecution_while_Map_while func it_t : ∀ it_u ret,
  impl.MapExecution_while func it_t it_u ret
  = impl.Map_while func it_t it_u ret.
Proof.
  induction it_t as [|x it_t IH]; intros it_u ret; simpl; [done|].
  destruct (impl.assign ret it_u (func x)); simpl; [apply IH|done].
Qed.

(** What [Map] returns. *)
Lemma Map_fmap cont func σ :
  impl.Map cont func σ = Some (impl.Val (func <$> σ cont), σ).
Proof.
  unfold impl.Map, impl.PreallocCont.
  rewrite Map_while_fills by (rewrite length_replicate; lia).
  by rewrite take_0.
Qed.

(** C4: [map(c, f)] returns an object of its own, a container as long as
    [c] whose element at every index [i] is [f(c[i])]. *)
Theorem map_length_and_elements cont func σ :
  ∃ ret, fff.map cont func σ = Some (impl.Val ret, σ)
         ∧ length ret = length (σ cont)
         ∧ ∀ i, ret !! i = func <$> (σ cont !! i).
Proof.
  exists (func <$> σ cont). unfold fff.map. split_and!.
  - apply Map_fmap.
  - apply length_fmap.
  - intros i. apply list_lookup_fmap.
Qed.

End map_properties.

(** ** Selecting: [filter] and [reject] *)
Section filter_properties.
Context {T : Type} `{!impl.Cont_template T}.
Implicit Types (func p : T → bool) (σ : impl.store T) (c ret : list T).

(** [Filter::PushPolicy] and [PushExecution::PushPolicy] agree. *)
Lemma PushPolicy_same ret v :
  impl.PushExecution_PushPolicy ret v = impl.Filter_PushPolicy ret v.
Proof. reflexivity. Qed.

(** The loop written out in [Filter] and the one of [PushExecution]
    compute the same. *)
Lemma PushExecution_for_Filter_for func c : ∀ ret,
  impl.PushExecution_for func c ret = impl.Filter_for func c ret.
Proof.
  induction c as [|v c IH]; intros ret; simpl; [done|].
  destruct (func v); [|apply IH].
  rewrite PushPolicy_same.
  destruct (impl.Filter_PushPolicy ret v); simpl; [apply IH|done].
Qed.

(** With [push_back] the loop appends the accepted elements in order. *)
Lemma Filter_for_push_back func c : ∀ ret,
  impl.BackPushable = true →
  impl.Filter_for func c ret = Some (ret ++ List.filter func c).
Proof.
  induction c as [|v c IH]; intros ret Hpb; simpl.
  - by rewrite app_nil_r.
  - destruct (func v); [|by apply IH].
    unfold impl.Filter_PushPolicy, impl.push_back. rewrite Hpb. simpl.
    rewrite IH by done. by rewrite <- app_assoc.
Qed.

(** Accepted elements satisfy the predicate and come from the input. *)
Lemma elem_of_List_filter func c x :
  x ∈ List.filter func c ↔ x ∈ c ∧ func x = true.
Proof. rewrite !list_elem_of_In. apply filter_In. Qed.

Lemma sublist_List_filter func c : List.filter func c `sublist_of` c.
Proof.
  induction c as [|v c IH]; simpl; [constructor|].
  destruct (func v); by constructor.
Qed.

(** What [Filter] returns for a container type with [push_back]. *)
Lemma Filter_push_back cont func σ :
  impl.BackPushable = true →
  impl.Filter cont func σ = Some (impl.Val (List.filter func (σ cont)), σ).
Proof.
  intros Hpb. unfold impl.Filter, impl.NewCont.
  by rewrite Filter_for_push_back.
Qed.

(** C5: on a container type that [filter] accepts and appends to with
    [push_back], as [PushPolicy] does whenever the type has it
    ([std::vector], [std::deque]): every element of [filter(c, p)] satisfies [p]; the result
    is a subsequence of [c], so its elements are in the relative order
    they have in [c]; and no element of [c] that fails [p] is in the
    result. *)
Theorem filter_subsequence cont p σ :
  impl.BackPushable = true →
  ∃ ret, fff.filter cont p σ = Some (impl.Val ret, σ)
         ∧ (∀ x, x ∈ ret → p x = true)
         ∧ ret `sublist_of` σ cont
         ∧ (∀ x, x ∈ σ cont → p x = false → x ∉ ret).
Proof.
  intros Hpb. unfold fff.filter. rewrite Filter_push_back by done.
  eexists. split_and!; [done| | |].
  - intros x Hx. by apply elem_of_List_filter in Hx as [_ ?].
  - apply sublist_List_filter.
  - intros x _ Hfail Hx. apply elem_of_List_filter in Hx as [_ ?]. congruence.
Qed.

(** The accepted and the rejected elements together are the input. *)
Lemma List_filter_not_fn_Permutation p c :
  List.filter p c ++ List.filter (impl.not_fn p) c ≡ₚ c.
Proof.
  induction c as [|v c IH]; simpl; [done|].
  unfold impl.not_fn at 1. destruct (p v); simpl.
  - by rewrite IH.
  - by rewrite <- Permutation_middle, IH.
Qed.

(** C9: [reject(c, p)] is [filter] applied to [c] and the negation of
    [p]; and on a container type that [filter] accepts and appends to with
    [push_back], [filter(c, p)] and [reject(c, p)] partition [c]: put one
    after the other, in either order, they hold the elements of [c], each
    as many times as [c] does. *)
Theorem filter_reject_partition cont p σ :
  impl.BackPushable = true →
  fff.reject cont p σ = fff.filter cont (λ x, negb (p x)) σ
  ∧ ∃ yes no,
      fff.filter cont p σ = Some (impl.Val yes, σ)
      ∧ fff.reject cont p σ = Some (impl.Val no, σ)
      ∧ yes ++ no ≡ₚ σ cont
      ∧ no ++ yes ≡ₚ σ cont.
Proof.
  intros Hpb. split; [reflexivity|].
  unfold fff.filter, fff.reject, impl.Reject.
  rewrite !Filter_push_back by done.
  eexists _, _. split_and!; [done|done| |].
  - apply List_filter_not_fn_Permutation.
  - rewrite Permutation_app_comm. apply List_filter_not_fn_Permutation.
Qed.

End filter_properties.

(** ** The executor *)
Section executor_properties.
Context {T U : Type} `{!impl.DefaultConstructible U}.

(** On a callable that acts on a writable element as on a [const] one, the
    loop of [MapExecution] as [Bloop] runs it computes what the loop in
    [Map] computes, and leaves the input's elements as they are. *)
Lemma MapExecution_writable_while_Map_while (func : impl.overloaded T U) it_t :
  (∀ x, impl.on_writable func x = (x, impl.on_const func x)) →
  ∀ it_u u_cont,
    impl.MapExecution_writable_while func it_t it_u u_cont
    = (λ u, (u, it_t)) <$> impl.Map_while (impl.on_const func) it_t it_u u_cont.
Proof.
  intros Hsame. induction it_t as [|x it_t IH]; intros it_u u_cont; simpl; [done|].
  rewrite Hsame. simpl.
  destruct (impl.assign u_cont it_u (impl.on_const func x)) as [u'|]; simpl;
    [|done].
  rewrite IH.
  by destruct (impl.Map_while (impl.on_const func) it_t (S it_u) u').
Qed.

End executor_properties.

(** C3, as the code has it: the exported [map] and [filter] compute what the
    executor computes with their two policies, so the loops written out
    in [Map] and [Filter] are not behaviourally distinct from those of the
    execution policies. [map(c, f)] is
    [Bloop<PreallocCont, MapExecution>()(c, f)] for a callable [f] that
    is a function of the element it is given, and more generally for one
    that acts on a writable element as on a [const] one ([Bloop] hands it a
    writable element of [c], [Map] a [const] one): same result, and [c]
    and the other containers as they were. [filter(c, p)] is
    [Bloop<NewCont, PushExecution>()(c, p)], results and stores alike
    (both hand [p] a [const] element). *)
Theorem map_filter_are_Bloop :
  (∀ (T U : Type) (D : impl.DefaultConstructible U)
     cont (func : T → U) (σ : impl.store T),
     fff.map cont func σ = impl.BloopMap cont func σ)
  ∧ (∀ (T U : Type) (D : impl.DefaultConstructible U)
       cont (func : impl.overloaded T U) (σ : impl.store T),
       (∀ x, impl.on_writable func x = (x, impl.on_const func x)) →
       ∃ ret σ',
         impl.BloopMap_writable cont func σ = Some (impl.Val ret, σ')
         ∧ fff.map cont (impl.on_const func) σ = Some (impl.Val ret, σ)
         ∧ ∀ l, σ' l = σ l)
  ∧ (∀ (T : Type) (C : impl.Cont_template T)
       cont (p : T → bool) (σ : impl.store T),
       fff.filter cont p σ = impl.BloopFilter cont p σ).
Proof.
  split_and!.
  - intros T U D cont func σ.
    unfold fff.map, impl.Map, impl.BloopMap, impl.Bloop, impl.MapExecution.
    pose proof (MapExecution_while_Map_while func (σ cont) 0
                  (impl.PreallocCont (σ cont) func)) as Hloop.
    congruence.
  - intros T U D cont func σ Hsame.
    unfold impl.BloopMap_writable, fff.map.
    rewrite MapExecution_writable_while_Map_while by done.
    rewrite Map_fmap. unfold impl.PreallocCont.
    rewrite Map_while_fills by (rewrite length_replicate; lia).
    rewrite take_0. simpl.
    eexists _, _. split_and!; [done..|].
    intros l. destruct (decide (cont = l)) as [->|Hl].
    + by rewrite fn_lookup_insert.
    + by rewrite fn_lookup_insert_ne.
  - intros T C cont p σ.
    unfold fff.filter, impl.Filter, impl.BloopFilter, impl.Bloop,
      impl.PushExecution, impl.NewCont.
    pose proof (PushExecution_for_Filter_for p (σ cont) []) as Hloop.
    congruence.
Qed.

(** ** The quantifiers *)
Section quantifier_properties.
Context {T : Type}.
Implicit Types (p : T → bool) (σ : impl.store T) (c : list T).

(** [LogicMake<true, ret>] answers [ret] when an element satisfies the
    predicate. *)
Lemma LogicMake_for_true ret p c :
  impl.LogicMake_for true ret p c = ret ↔ ∃ x, x ∈ c ∧ p x = true.
Proof.
  induction c as [|v c IH]; simpl.
  - split; [by destruct ret|]. intros (x & Hx & _). by apply elem_of_nil in Hx.
  - destruct (p v) eqn:Hv; simpl.
    + split; [|done]. intros _. exists v. split; [by left|done].
    + rewrite IH. split.
      * intros (x & Hx & Hp). exists x. split; [by right|done].
      * intros (x & Hx & Hp). apply elem_of_cons in Hx as [->|Hx];
          [congruence|eauto].
Qed.

(** [LogicMake<false, ret>] answers [not ret] when all elements satisfy
    the predicate. *)
Lemma LogicMake_for_false ret p c :
  impl.LogicMake_for false ret p c = negb ret ↔ ∀ x, x ∈ c → p x = true.
Proof.
  induction c as [|v c IH]; simpl.
  - split; [|done]. intros _ x Hx. by apply elem_of_nil in Hx.
  - destruct (p v) eqn:Hv; simpl.
    + rewrite IH. split.
      * intros Hall x Hx. apply elem_of_cons in Hx as [->|Hx]; auto.
      * intros Hall x Hx. apply Hall. by right.
    + split; [by destruct ret|].
      intros Hall. assert (p v = true) by (apply Hall; by left). congruence.
Qed.

(** The same scan with the opposite answer. *)
Lemma LogicMake_for_negb func_ret ret p c :
  impl.LogicMake_for func_ret (negb ret) p c
  = negb (impl.LogicMake_for func_ret ret p c).
Proof.
  induction c as [|v c IH]; simpl; [done|].
  by destruct (eqb (p v) func_ret).
Qed.

(** C6: [some(c, p)] is true iff an element of [c] satisfies [p],
    [every(c, p)] is true iff all elements of [c] do, and [none(c, p)]
    is the negation of [some(c, p)]; on an empty [c], [some] is false,
    [every] is true and [none] is true. *)
Theorem quantifiers_correct cont p σ :
  ∃ s e n,
    fff.some cont p σ = (impl.Val s, σ)
    ∧ fff.every cont p σ = (impl.Val e, σ)
    ∧ fff.none cont p σ = (impl.Val n, σ)
    ∧ (s = true ↔ ∃ x, x ∈ σ cont ∧ p x = true)
    ∧ (e = true ↔ ∀ x, x ∈ σ cont → p x = true)
    ∧ n = negb s
    ∧ (σ cont = [] → s = false ∧ e = true ∧ n = true).
Proof.
  unfold fff.some, fff.every, fff.none, impl.LogicMake.
  eexists _, _, _. split_and!; [done..| | | |].
  - apply LogicMake_for_true.
  - apply (LogicMake_for_false false).
  - apply (LogicMake_for_negb true true).
  - by intros ->.
Qed.

End quantifier_properties.

(** ** What the algorithms do to the caller's containers *)
Section store_properties.
Context {T : Type}.
Implicit Types (σ : impl.store T) (c : list T).

(** [for_each] leaves in each element what [func] leaves there. *)
Lemma for_each_fmap {R : Type} (func : T → T * R) c :
  impl.for_each c func = (λ x, (func x).1) <$> c.
Proof. induction c as [|x c IH]; simpl; [done|]. by rewrite IH. Qed.


End store_properties.

(** ** Callables that reach the caller's containers *)
Section reaching_properties.
Context {T : Type}.
Implicit Types (σ : impl.store T) (cont : nat).

(** The loop in [Map] on a callable that leaves [cont] alone ends, and
    [cont] is then as it was. *)
Lemma Map_while_reaching_keeps {U : Type} (func : impl.reaching U) cont :
  (∀ x σ, (func x σ).2 cont = σ cont) →
  ∀ remaining it ret σ,
    it + remaining = length (σ cont) → it + remaining ≤ length ret →
    ∃ r, impl.Map_while_reaching func cont remaining it ret σ = Some r
         ∧ r.2 cont = σ cont.
Proof.
  intros Hkeeps. induction remaining as [|k IH]; intros it ret σ Hlen Hret;
    simpl; [by eexists|].
  destruct (lookup_lt_is_Some_2 (σ cont) it) as [x Hx]; [lia|].
  rewrite Hx. simpl. rewrite decide_True by by rewrite Hkeeps.
  rewrite assign_in_range by lia. simpl.
  destruct (IH (S it) (<[it := (func x σ).1]> ret) (func x σ).2)
    as (r & Hr & Hc).
  - rewrite Hkeeps. lia.
  - rewrite length_insert. lia.
  - exists r. split; [done|]. by rewrite Hc, Hkeeps.
Qed.

(** The loop in [Filter], likewise, on a container type with
    [push_back]. *)
Lemma Filter_for_reaching_keeps `{!impl.Cont_template T}
    (func : impl.reaching bool) cont :
  impl.BackPushable = true → (∀ x σ, (func x σ).2 cont = σ cont) →
  ∀ remaining it ret σ,
    it + remaining = length (σ cont) →
    ∃ r, impl.Filter_for_reaching func cont remaining it ret σ = Some r
         ∧ r.2 cont = σ cont.
Proof.
  intros Hpb Hkeeps. induction remaining as [|k IH]; intros it ret σ Hlen;
    simpl; [by eexists|].
  destruct (lookup_lt_is_Some_2 (σ cont) it) as [x Hx]; [lia|].
  rewrite Hx. simpl. rewrite decide_True by by rewrite Hkeeps.
  rewrite Hkeeps, Hx. simpl.
  unfold impl.Filter_PushPolicy. rewrite Hpb. simpl.
  destruct (func x σ).1.
  - destruct (IH (S it) (impl.push_back ret x) (func x σ).2) as (r & Hr & Hc);
      [rewrite Hkeeps; lia|].
    exists r. split; [done|]. by rewrite Hc, Hkeeps.
  - destruct (IH (S it) ret (func x σ).2) as (r & Hr & Hc);
      [rewrite Hkeeps; lia|].
    exists r. split; [done|]. by rewrite Hc, Hkeeps.
Qed.

(** The scan of [LogicMake], likewise. *)
Lemma LogicMake_for_reaching_keeps func_ret ret
    (func : impl.reaching bool) cont :
  (∀ x σ, (func x σ).2 cont = σ cont) →
  ∀ remaining it σ,
    it + remaining = length (σ cont) →
    ∃ r, impl.LogicMake_for_reaching func_ret ret func cont remaining it σ
         = Some r
         ∧ r.2 cont = σ cont.
Proof.
  intros Hkeeps. induction remaining as [|k IH]; intros it σ Hlen;
    simpl; [by eexists|].
  destruct (lookup_lt_is_Some_2 (σ cont) it) as [x Hx]; [lia|].
  rewrite Hx. simpl. rewrite decide_True by by rewrite Hkeeps.
  destruct (eqb (func x σ).1 func_ret).
  - eexists. split; [done|]. apply Hkeeps.
  - destruct (IH (S it) (func x σ).2) as (r & Hr & Hc);
      [rewrite Hkeeps; lia|].
    exists r. split; [done|]. by rewrite Hc, Hkeeps.
Qed.

(** On callables that are functions of the element and touch nothing,
    [Map] with a reaching callable is [Map]. *)
Lemma Map_while_reaching_pure {U : Type} (f : T → U) cont σ rest :
  ∀ pre ret,
    σ cont = pre ++ rest →
    impl.Map_while_reaching (λ x τ, (f x, τ)) cont (length rest) (length pre)
      ret σ
    = (λ r, (r, σ)) <$> impl.Map_while f rest (length pre) ret.
Proof.
  induction rest as [|x rest IH]; intros pre ret Hc; simpl; [done|].
  rewrite Hc, list_lookup_middle by done. simpl.
  rewrite decide_True by done.
  destruct (impl.assign ret (length pre) (f x)) as [ret'|]; simpl; [|done].
  specialize (IH (pre ++ [x]) ret').
  rewrite length_app, Nat.add_1_r, <- app_assoc in IH. by apply IH.
Qed.

Lemma Map_reaching_pure {U : Type} `{!impl.DefaultConstructible U}
    (f : T → U) cont σ :
  impl.Map_reaching cont (λ x τ, (f x, τ)) σ = impl.Map cont f σ.
Proof.
  unfold impl.Map_reaching, impl.Map, impl.PreallocCont.
  rewrite (Map_while_reaching_pure f cont σ (σ cont) []) by done. simpl.
  by destruct (impl.Map_while f (σ cont) 0 _).
Qed.

(** C10, as the code has it: for callables that do not themselves change
    [c] (they may reach other containers), [map], [filter], [reject]
    (these two on a container type that [filter] accepts and appends to
    with [push_back]), [some], [every] and [none] return and leave [c] as
    it was: its length, the order of its elements and their values. *)
Theorem inputs_unchanged {U : Type} `{!impl.DefaultConstructible U}
    `{!impl.Cont_template T} cont
    (f : impl.reaching U) (p : impl.reaching bool) σ :
  impl.BackPushable = true →
  (∀ x τ, (f x τ).2 cont = τ cont) →
  (∀ x τ, (p x τ).2 cont = τ cont) →
  (∃ r σ', impl.Map_reaching cont f σ = Some (r, σ') ∧ σ' cont = σ cont)
  ∧ (∃ r σ', impl.Filter_reaching cont p σ = Some (r, σ')
             ∧ σ' cont = σ cont)
  ∧ (∃ r σ', impl.Reject_reaching cont p σ = Some (r, σ')
             ∧ σ' cont = σ cont)
  ∧ (∃ r σ', impl.LogicMake_reaching true true cont p σ = Some (r, σ')
             ∧ σ' cont = σ cont)
  ∧ (∃ r σ', impl.LogicMake_reaching false false cont p σ = Some (r, σ')
             ∧ σ' cont = σ cont)
  ∧ (∃ r σ', impl.LogicMake_reaching true false cont p σ = Some (r, σ')
             ∧ σ' cont = σ cont).
Proof.
  intros Hpb Hf Hp. split_and!.
  - unfold impl.Map_reaching, impl.PreallocCont.
    destruct (Map_while_reaching_keeps f cont Hf (length (σ cont)) 0
                (replicate (length (σ cont)) impl.value_init) σ)
      as (r & Hr & Hc); [done|by rewrite length_replicate|].
    rewrite Hr. simpl. eauto.
  - unfold impl.Filter_reaching.
    destruct (Filter_for_reaching_keeps p cont Hpb Hp (length (σ cont)) 0
                (impl.NewCont (σ cont) (@elem.copy T)) σ)
      as (r & Hr & Hc); [done|].
    rewrite Hr. simpl. eauto.
  - unfold impl.Reject_reaching, impl.Filter_reaching.
    destruct (Filter_for_reaching_keeps (impl.not_fn_reaching p) cont Hpb
                (λ x τ, Hp x τ) (length (σ cont)) 0
                (impl.NewCont (σ cont) (@elem.copy T)) σ)
      as (r & Hr & Hc); [done|].
    rewrite Hr. simpl. eauto.
  - unfold impl.LogicMake_reaching.
    destruct (LogicMake_for_reaching_keeps true true p cont Hp
                (length (σ cont)) 0 σ) as (r & Hr & Hc); [done|].
    rewrite Hr. simpl. eauto.
  - unfold impl.LogicMake_reaching.
    destruct (LogicMake_for_reaching_keeps false false p cont Hp
                (length (σ cont)) 0 σ) as (r & Hr & Hc); [done|].
    rewrite Hr. simpl. eauto.
  - unfold impl.LogicMake_reaching.
    destruct (LogicMake_for_reaching_keeps true false p cont Hp
                (length (σ cont)) 0 σ) as (r & Hr & Hc); [done|].
    rewrite Hr. simpl. eauto.
Qed.

End reaching_properties.

(** ** The properties on [std::vector<unsigned>] *)

(** [each] on the sequence [1, 2, 3, 4] with a callable that doubles in
    place: nothing is returned, the sequence holds [2, 4, 6, 8]. With a
    callable that takes its argument by value and returns the double, the
    sequence stays as it was. *)
Example each_doubles :
  fff.each 0 std.double_in_place std.two_containers
  = (impl.Void, <[0 := [2; 4; 6; 8]]> std.two_containers)
  ∧ (fff.each 0 std.double_by_value std.two_containers).2 0 = [1; 2; 3; 4].
Proof. split; reflexivity. Qed.


(** C3 as stated fails: [each] is a traversal written out on its own and
    it does not behave as the executor with its two policies,
    [Bloop<IdentityAt<0>, MapExecution>], does. On [1, 2, 3, 4] with a
    callable that takes its argument by value and returns the double,
    [each] returns nothing and leaves the container as it was; the executor
    returns a container and leaves [2, 4, 6, 8] in the caller's. *)
Lemma each_is_not_BloopEach_counterexample :
  Some (fff.each 0 std.double_by_value std.two_containers)
  ≠ impl.BloopEach 0 std.double_by_value std.two_containers.
Proof. vm_compute. discriminate. Qed.

(** What the two leave in the caller's container. *)
Example each_and_BloopEach_stores :
  (fff.each 0 std.double_by_value std.two_containers).2 0 = [1; 2; 3; 4]
  ∧ ∃ σ', impl.BloopEach 0 std.double_by_value std.two_containers
          = Some (impl.Val [2; 4; 6; 8], σ')
          ∧ σ' 0 = [2; 4; 6; 8].
Proof. split; [reflexivity|]. eexists. split; reflexivity. Qed.

(** On a callable whose two call operators differ, [map] and the executor
    differ: [map] calls the one for a [const] element, the executor the
    one for a writable element, which here also zeroes the input. *)
Example map_and_BloopMap_const_aware :
  let _ := std.unsigned_default in
  fff.map 0 (impl.on_const std.const_aware) std.two_containers
  = Some (impl.Val [2; 2; 2; 2], std.two_containers)
  ∧ ∃ σ', impl.BloopMap_writable 0 std.const_aware std.two_containers
          = Some (impl.Val [1; 1; 1; 1], σ')
          ∧ σ' 0 = [0; 0; 0; 0].
Proof. split; [reflexivity|]. eexists. split; reflexivity. Qed.

(** The scenario of the specification: on [1, 2, 3, 4], [map] with doubling
    gives [2, 4, 6, 8], [filter] with evenness [2, 4], [reject] [1, 3],
    and [some], [every], [none] answer true, false, false. *)
Example scenario :
  let σ := std.two_containers in
  let _ := std.vector nat in
  let _ := std.unsigned_default in
  fff.map 0 std.twice σ = Some (impl.Val [2; 4; 6; 8], σ)
  ∧ fff.filter 0 std.is_even σ = Some (impl.Val [2; 4], σ)
  ∧ fff.reject 0 std.is_even σ = Some (impl.Val [1; 3], σ)
  ∧ fff.some 0 std.is_even σ = (impl.Val true, σ)
  ∧ fff.every 0 std.is_even σ = (impl.Val false, σ)
  ∧ fff.none 0 std.is_even σ = (impl.Val false, σ).
Proof. repeat split. Qed.

(** [filter_subsequence] on a [std::vector] holding [1, 2, 3, 4]. *)
Lemma filter_subsequence_witness :
  ∃ ret, @fff.filter nat (std.vector nat) 0 std.is_even std.two_containers
         = Some (impl.Val ret, std.two_containers)
         ∧ (∀ x, x ∈ ret → std.is_even x = true)
         ∧ ret `sublist_of` [1; 2; 3; 4]
         ∧ (∀ x, x ∈ [1; 2; 3; 4] → std.is_even x = false → x ∉ ret).
Proof.
  exact (@filter_subsequence nat (std.vector nat) 0 std.is_even
           std.two_containers eq_refl).
Defined.

(** [filter_reject_partition] on a [std::vector] holding [1, 2, 3, 4]:
    [2, 4] and [1, 3]. *)
Lemma filter_reject_partition_witness :
  (@fff.reject nat (std.vector nat) 0 std.is_even std.two_containers
   = @fff.filter nat (std.vector nat) 0 (λ x, negb (std.is_even x))
       std.two_containers
   ∧ ∃ yes no,
       @fff.filter nat (std.vector nat) 0 std.is_even std.two_containers
       = Some (impl.Val yes, std.two_containers)
       ∧ @fff.reject nat (std.vector nat) 0 std.is_even std.two_containers
         = Some (impl.Val no, std.two_containers)
       ∧ yes ++ no ≡ₚ [1; 2; 3; 4]
       ∧ no ++ yes ≡ₚ [1; 2; 3; 4])
  ∧ @fff.filter nat (std.vector nat) 0 std.is_even std.two_containers
    = Some (impl.Val [2; 4], std.two_containers)
  ∧ @fff.reject nat (std.vector nat) 0 std.is_even std.two_containers
    = Some (impl.Val [1; 3], std.two_containers).
Proof.
  split; [|split; reflexivity].
  exact (@filter_reject_partition nat (std.vector nat) 0 std.is_even
           std.two_containers eq_refl).
Defined.

(** [inputs_unchanged] on a [std::vector] holding [1, 2, 3, 4], with
    callables that append what they see to the container at address
    [1]. *)
Lemma inputs_unchanged_witness :
  let σ := std.two_containers in
  (∃ r σ', @impl.Map_reaching nat nat std.unsigned_default 0
             std.logging_twice σ = Some (r, σ') ∧ σ' 0 = [1; 2; 3; 4])
  ∧ (∃ r σ', @impl.Filter_reaching nat (std.vector nat) 0
               std.logging_is_even σ = Some (r, σ') ∧ σ' 0 = [1; 2; 3; 4])
  ∧ (∃ r σ', @impl.Reject_reaching nat (std.vector nat) 0
               std.logging_is_even σ = Some (r, σ') ∧ σ' 0 = [1; 2; 3; 4])
  ∧ (∃ r σ', impl.LogicMake_reaching true true 0 std.logging_is_even σ
             = Some (r, σ') ∧ σ' 0 = [1; 2; 3; 4])
  ∧ (∃ r σ', impl.LogicMake_reaching false false 0 std.logging_is_even σ
             = Some (r, σ') ∧ σ' 0 = [1; 2; 3; 4])
  ∧ (∃ r σ', impl.LogicMake_reaching true false 0 std.logging_is_even σ
             = Some (r, σ') ∧ σ' 0 = [1; 2; 3; 4]).
Proof.
  exact (@inputs_unchanged nat nat std.unsigned_default (std.vector nat) 0
           std.logging_twice std.logging_is_even std.two_containers
           eq_refl (λ _ _, eq_refl) (λ _ _, eq_refl)).
Defined.

(** What the run of [map] with the logging callable gives: the doubles,
    the input as it was, and the elements seen, in order, after what the
    other container held. *)
Example map_logging :
  ∃ σ', @impl.Map_reaching nat nat std.unsigned_default 0 std.logging_twice
          std.two_containers = Some (impl.Val [2; 4; 6; 8], σ')
        ∧ σ' 0 = [1; 2; 3; 4] ∧ σ' 1 = [7; 7; 1; 2; 3; 4].
Proof. eexists. split_and!; reflexivity. Qed.

(** C10 as stated fails: a callable that captured [c] by reference and
    writes to it changes [c] during [map(c, f)]; on [1, 2, 3, 4] the call
    returns [2, 4, 6, 0] and leaves [1, 2, 3, 0]. *)
Lemma map_changes_input_counterexample :
  ¬ (∀ r σ', @impl.Map_reaching nat nat std.unsigned_default 0
               std.clobbering_twice std.two_containers = Some (r, σ') →
             σ' 0 = std.two_containers 0).
Proof.
  intros Hclaim.
  assert (∃ σ', @impl.Map_reaching nat nat std.unsigned_default 0
                  std.clobbering_twice std.two_containers
                = Some (impl.Val [2; 4; 6; 0], σ')
                ∧ σ' 0 = [1; 2; 3; 0]) as (σ' & Hrun & Hc).
  { eexists. split; reflexivity. }
  specialize (Hclaim _ _ Hrun). rewrite Hc in Hclaim. discriminate Hclaim.
Qed.

(** * Further properties *)

(** ** Picking an argument *)

(** [IdentityAt<SZ>] and [CopyAt<SZ>] both yield the argument at position
    [SZ], counted from [0]; with [SZ] arguments or fewer the call has no
    viable overload. *)
Theorem IdentityAt_CopyAt_lookup {V : Type} (SZ : nat) (pack : list V) :
  fff.identity_at SZ pack = pack !! SZ ∧ fff.copy_at SZ pack = pack !! SZ.
Proof.
  assert (∀ n (l : list V), elem.IdentityAt n l = l !! n) as Hid.
  { intros n l. revert n. induction l as [|t args IH]; intros [|n]; simpl; auto. }
  split; [apply Hid|].
  unfold fff.copy_at. destruct pack as [|t args], SZ as [|SZ]; simpl; auto.
Qed.

(** ** The memoizing wrapper, any number of calls *)
Section once_more.
Context {W E R : Type}.
Implicit Types (f : util.invocable_F W E R) (o : util.wrapper W E R) (w : W).




(** Memoization is per wrapper: two wrappers made from the same callable
    (or a copy of a wrapper taken before its first call) each run it once,
    the second on the world the first left, and each keeps its own
    result. *)
Theorem once_wrappers_independent memo_init f w0 w1 w2 r1 r2 :
  util.invoke f w0 = (Returns r1, w1) →
  util.invoke f w1 = (Returns r2, w2) →
  ∃ a b,
    util.call (fff.once memo_init f) w0 = (Returns r1, a, w1)
    ∧ util.call (fff.once memo_init f) w1 = (Returns r2, b, w2)
    ∧ util.call a w2 = (Returns r1, a, w2)
    ∧ util.call b w2 = (Returns r2, b, w2).
Proof.
  intros H1 H2. unfold fff.once.
  destruct (call_fresh_returns memo_init f w0 w1 r1 H1) as (a & Ha & Hfa & Hma).
  destruct (call_fresh_returns memo_init f w1 w2 r2 H2) as (b & Hb & Hfb & Hmb).
  exists a, b. split_and!; [done..| |].
  - rewrite <- Hma. by apply call_flag_set.
  - rewrite <- Hmb. by apply call_flag_set.
Qed.

End once_more.


(** [once_wrappers_independent] on the callable that counts its runs: the
    two wrappers hold [1] and [2]. *)
Lemma once_wrappers_independent_witness :
  ∃ a b,
    util.call (fff.once None (util.non_void util.counting)) 0
    = (Returns (Some 1), a, 1)
    ∧ util.call (fff.once None (util.non_void util.counting)) 1
      = (Returns (Some 2), b, 2)
    ∧ util.call a 2 = (Returns (Some 1), a, 2)
    ∧ util.call b 2 = (Returns (Some 2), b, 2).
Proof.
  exact (once_wrappers_independent None (util.non_void util.counting)
           0 1 2 (Some 1) (Some 2) eq_refl eq_refl).
Defined.

(** ** Chains of three callables *)
Section concat_more.
Context {sig : Type} {args : sig → Type} {W : Type} {R1 R2 R3 : sig → Type}.
Context (f1 : elem.callable args W R1) (f2 : elem.callable args W R2)
        (f3 : elem.callable args W R3).

(** The chain [make_concat(f1, f2, f3)] is invocable where one of the three
    is, and it runs the first of them, from the left, that is invocable:
    the result carries the tag of that one. *)
Theorem MakeConcat3_first_invocable s :
  elem.invocable (elem.Fconcat_call (elem.MakeConcat3 f1 f2 f3)) s
  = elem.invocable f1 s || elem.invocable f2 s || elem.invocable f3 s
  ∧ match f1 s, f2 s, f3 s with
    | Some run, _, _ =>
        ∃ g, elem.Fconcat_call (elem.MakeConcat3 f1 f2 f3) s = Some g
             ∧ ∀ a w, g a w = (inl (run a w).1, (run a w).2)
    | None, Some run, _ =>
        ∃ g, elem.Fconcat_call (elem.MakeConcat3 f1 f2 f3) s = Some g
             ∧ ∀ a w, g a w = (inr (inl (run a w).1), (run a w).2)
    | None, None, Some run =>
        ∃ g, elem.Fconcat_call (elem.MakeConcat3 f1 f2 f3) s = Some g
             ∧ ∀ a w, g a w = (inr (inr (run a w).1), (run a w).2)
    | None, None, None =>
        elem.Fconcat_call (elem.MakeConcat3 f1 f2 f3) s = None
    end.
Proof.
  unfold elem.invocable, elem.MakeConcat3, elem.MakeConcat, elem.Fconcat_call.
  simpl.
  destruct (f1 s) as [run1|], (f2 s) as [run2|], (f3 s) as [run3|];
    (split; [done|]); try done;
    eexists; (split; [done|]); intros a w; simpl.
  - by destruct (run1 a w).
  - by destruct (run1 a w).
  - by destruct (run1 a w).
  - by destruct (run1 a w).
  - by destruct (run2 a w).
  - by destruct (run2 a w).
  - by destruct (run3 a w).
Qed.

(** Nesting to the left, [make_concat(make_concat(f1, f2), f3)], chooses
    as nesting to the right, [make_concat(f1, f2, f3)], does: the two
    chains are invocable with the same signatures and a call gives the
    same result, tags rearranged, and the same world. *)
Theorem make_concat_nesting s :
  match elem.Fconcat_call
          (elem.MakeConcat (elem.Fconcat_call (elem.MakeConcat f1 f2)) f3) s,
        elem.Fconcat_call (elem.MakeConcat3 f1 f2 f3) s with
  | Some g, Some h => ∀ a w, h a w = (elem.retag (g a w).1, (g a w).2)
  | None, None => True
  | _, _ => False
  end.
Proof.
  unfold elem.MakeConcat3, elem.MakeConcat, elem.Fconcat_call. simpl.
  destruct (f1 s) as [run1|], (f2 s) as [run2|], (f3 s) as [run3|];
    try done; intros a w; simpl.
  - by destruct (run1 a w).
  - by destruct (run1 a w).
  - by destruct (run1 a w).
  - by destruct (run1 a w).
  - by destruct (run2 a w).
  - by destruct (run2 a w).
  - by destruct (run3 a w).
Qed.

End concat_more.

(** ** The execution policies on their own *)
Section execution_more.
Context {T : Type}.

(** Writing at the place just after [pre] in a container that has one. *)
Lemma assign_middle {U : Type} (pre post : list U) (y v : U) :
  impl.assign (pre ++ y :: post) (length pre) v = Some (pre ++ v :: post).
Proof.
  unfold impl.assign. rewrite decide_True by (rewrite length_app; simpl; lia).
  f_equal. rewrite <- (Nat.add_0_r (length pre)). by rewrite insert_app_r.
Qed.

(** With a place in [u_cont] for each element, the loop overwrites these
    places and no other. *)
Lemma MapExecution_while_room {U : Type} (func : T → U) it_t :
  ∀ pre mid post,
    length mid = length it_t →
    impl.MapExecution_while func it_t (length pre) (pre ++ mid ++ post)
    = Some (pre ++ (func <$> it_t) ++ post).
Proof.
  induction it_t as [|x it_t IH]; intros pre mid post Hlen.
  - by destruct mid.
  - destruct mid as [|y mid]; [done|]. simpl in *.
    rewrite assign_middle. simpl.
    specialize (IH (pre ++ [func x]) mid post).
    rewrite length_app, Nat.add_1_r, <- !app_assoc in IH. simpl in IH.
    apply IH. lia.
Qed.

(** With fewer places than elements the loop comes to write through
    [end()]. *)
Lemma MapExecution_while_short {U : Type} (func : T → U) it_t :
  ∀ pre mid,
    length mid < length it_t →
    impl.MapExecution_while func it_t (length pre) (pre ++ mid) = None.
Proof.
  induction it_t as [|x it_t IH]; intros pre mid Hlen; simpl in *; [lia|].
  destruct mid as [|y mid].
  - unfold impl.assign. rewrite decide_False; [done|].
    rewrite app_nil_r. lia.
  - rewrite assign_middle. simpl.
    specialize (IH (pre ++ [func x]) mid).
    rewrite length_app, Nat.add_1_r, <- !app_assoc in IH. simpl in *.
    apply IH. lia.
Qed.

(** [MapExecution] on an output container at least as long as the input
    overwrites its first [t_cont.size()] elements with the images of the
    input's elements and keeps the others; on a shorter output container
    it writes through [end()], which is undefined. *)
Theorem MapExecution_bounds {U : Type}
    (u_cont : list U) (t_cont : list T) (func : T → U) :
  impl.MapExecution u_cont t_cont func
  = if decide (length t_cont ≤ length u_cont)
    then Some ((func <$> t_cont) ++ drop (length t_cont) u_cont)
    else None.
Proof.
  unfold impl.MapExecution. case_decide as Hlen.
  - rewrite <- (take_drop (length t_cont) u_cont) at 1.
    apply (MapExecution_while_room func t_cont []).
    rewrite length_take. lia.
  - apply (MapExecution_while_short func t_cont [] u_cont). lia.
Qed.


(** The loop run in place: each element ends with the value [func]
    returned for it, whatever [func] wrote through its argument. *)
Lemma MapExecution_aliased_while_spec (func : T → T * T) rest :
  ∀ pre post,
    impl.MapExecution_aliased_while func (length rest) (length pre)
      (pre ++ rest ++ post)
    = Some (pre ++ ((λ x, (func x).2) <$> rest) ++ post).
Proof.
  induction rest as [|x rest IH]; intros pre post; simpl; [done|].
  rewrite list_lookup_middle by done. simpl.
  rewrite assign_middle. simpl. rewrite assign_middle. simpl.
  specialize (IH (pre ++ [(func x).2]) post).
  rewrite length_app, Nat.add_1_r, <- !app_assoc in IH. apply IH.
Qed.

(** [MapExecution] run in place, output and input the same container,
    gives what it gives run from the container into a separate container
    with the same number of elements: a place is read before it is
    written. *)
Theorem MapExecution_in_place (func : T → T * T) (cont other : list T) :
  length other = length cont →
  impl.MapExecution_aliased_while func (length cont) 0 cont
  = impl.MapExecution other cont (λ x, (func x).2).
Proof.
  intros Hlen. rewrite MapExecution_bounds, decide_True by lia.
  rewrite drop_ge, app_nil_r by lia.
  pose proof (MapExecution_aliased_while_spec func cont [] []) as Hspec.
  by rewrite !app_nil_r in Hspec.
Qed.

(** [BloopEach] returns, as an object of its own, the container of the
    values [func] returned, as long as the input; the caller's container
    holds the same values afterwards and no other container changes. Where
    [func] returns the value it leaves in the element, [BloopEach] and
    [each] leave the same store. *)
Theorem BloopEach_result cont (func : T → T * T) (σ : impl.store T) :
  ∃ ret σ',
    impl.BloopEach cont func σ = Some (impl.Val ret, σ')
    ∧ ret = (λ x, (func x).2) <$> σ cont
    ∧ σ' cont = ret
    ∧ (∀ l, l ≠ cont → σ' l = σ l)
    ∧ ((∀ x, (func x).1 = (func x).2) →
       ∀ l, σ' l = (fff.each cont func σ).2 l).
Proof.
  unfold impl.BloopEach.
  pose proof (MapExecution_aliased_while_spec func (σ cont) [] []) as Hspec.
  rewrite !app_nil_r in Hspec. simpl in Hspec. rewrite Hspec. simpl.
  eexists _, _. split_and!; [done..| | |].
  - by rewrite fn_lookup_insert.
  - intros l Hl. by rewrite fn_lookup_insert_ne.
  - intros Hsame l. unfold fff.each, impl.Each. simpl.
    rewrite for_each_fmap. destruct (decide (cont = l)) as [->|Hl].
    + rewrite !fn_lookup_insert. apply list_fmap_ext. intros _ x _.
      symmetry. apply Hsame.
    + by rewrite !fn_lookup_insert_ne.
Qed.

End execution_more.

(** [MapExecution_in_place] on [1, 2, 3, 4] with a callable that zeroes the
    element and returns its double. *)
Lemma MapExecution_in_place_witness :
  impl.MapExecution_aliased_while (λ x, (0, 2 * x)) 4 0 [1; 2; 3; 4]
  = impl.MapExecution [0; 0; 0; 0] [1; 2; 3; 4] (λ x, 2 * x)
  ∧ impl.MapExecution [0; 0; 0; 0] [1; 2; 3; 4] (λ x, 2 * x)
    = Some [2; 4; 6; 8].
Proof.
  split; [|reflexivity].
  exact (MapExecution_in_place (λ x, (0, 2 * x)) [1; 2; 3; 4] [0; 0; 0; 0]
           eq_refl).
Defined.

(** ** How the algorithms compose *)
Section map_more.
Context {T U V : Type}.
Context `{!impl.DefaultConstructible T} `{!impl.DefaultConstructible U}
        `{!impl.DefaultConstructible V}.

(** [map] with [copy] returns a container equal to the input; and mapping
    [g] over the result of mapping [f], kept by the caller at an address
    [l], gives what mapping the composition of [f] and [g] over the input
    gives. *)
Theorem map_copy_and_compose cont l (f : T → U) (g : U → V)
    (σ : impl.store T) (τ : impl.store U) :
  fff.map cont elem.copy σ = Some (impl.Val (σ cont), σ)
  ∧ ∃ ret ret',
      fff.map cont f σ = Some (impl.Val ret, σ)
      ∧ fff.map l g (<[l := ret]> τ) = Some (impl.Val ret', <[l := ret]> τ)
      ∧ fff.map cont (λ x, g (f x)) σ = Some (impl.Val ret', σ).
Proof.
  unfold fff.map. split.
  - rewrite Map_fmap. do 2 f_equal. f_equal. apply list_fmap_id.
  - eexists _, _. split_and!.
    + apply Map_fmap.
    + rewrite Map_fmap, fn_lookup_insert. done.
    + rewrite Map_fmap. do 2 f_equal. f_equal.
      by rewrite <- list_fmap_compose.
Qed.

End map_more.

Section filter_more.
Context {T : Type} `{!impl.Cont_template T}.
Implicit Types (p q : T → bool) (σ : impl.store T) (c ret : list T).

(** Predicates that agree on every element select the same. *)
Lemma Filter_for_ext p q c : ∀ ret,
  (∀ x, p x = q x) → impl.Filter_for p c ret = impl.Filter_for q c ret.
Proof.
  induction c as [|v c IH]; intros ret Hpq; simpl; [done|].
  rewrite <- Hpq. destruct (p v); [|by apply IH].
  destruct (impl.Filter_PushPolicy ret v); simpl; [by apply IH|done].
Qed.

(** [PushExecution] called on a result container that holds elements
    already keeps them, in place, and appends the accepted elements after
    them in the order of the input, when the container type has
    [push_back]. *)
Theorem PushExecution_appends p (res_cont var_cont : list T) :
  impl.BackPushable = true →
  impl.PushExecution res_cont var_cont p
  = Some (res_cont ++ List.filter p var_cont).
Proof.
  intros Hpb. unfold impl.PushExecution.
  rewrite PushExecution_for_Filter_for. by apply Filter_for_push_back.
Qed.

(** On a container type with [push_back], [filter(c, p)] is the sequence
    of the elements of [c] that satisfy [p], in the order and as many
    times as they are in [c]: no accepted element is lost, repeated ones
    included. Whatever is counted, the result has as many as [c] has
    among its accepted elements. *)
Theorem filter_elements cont p σ :
  impl.BackPushable = true →
  ∃ ret, fff.filter cont p σ = Some (impl.Val ret, σ)
         ∧ ret = List.filter p (σ cont)
         ∧ ∀ counted : T → bool,
             length (List.filter counted ret)
             = length (List.filter (λ x, p x && counted x) (σ cont)).
Proof.
  intros Hpb. unfold fff.filter. rewrite Filter_push_back by done.
  eexists. split_and!; [done..|].
  intros counted. f_equal.
  induction (σ cont) as [|x c IH]; simpl; [done|].
  destruct (p x); simpl; [|done]. destruct (counted x); by rewrite IH.
Qed.

(** On a container type with [push_back], filtering by [q] the result of
    filtering by [p], kept by the caller at an address [l], gives the
    elements of the input that satisfy both, in the order of the input;
    so filtering twice by the same predicate changes nothing more. *)
Theorem filter_filter cont l p q σ σ1 :
  impl.BackPushable = true →
  ∃ ret ret',
    fff.filter cont p σ = Some (impl.Val ret, σ)
    ∧ fff.filter l q (<[l := ret]> σ1) = Some (impl.Val ret', <[l := ret]> σ1)
    ∧ fff.filter cont (λ x, p x && q x) σ = Some (impl.Val ret', σ)
    ∧ fff.filter l p (<[l := ret]> σ1) = Some (impl.Val ret, <[l := ret]> σ1).
Proof.
  intros Hpb. unfold fff.filter, impl.Filter, impl.NewCont.
  exists (List.filter p (σ cont)), (List.filter q (List.filter p (σ cont))).
  rewrite !Filter_for_push_back, !fn_lookup_insert by done. simpl.
  split_and!; [done|done| |].
  - do 3 f_equal. induction (σ cont) as [|x c IH]; simpl; [done|].
    destruct (p x); simpl; [|done]. destruct (q x); by rewrite IH.
  - do 3 f_equal. induction (σ cont) as [|x c IH]; simpl; [done|].
    destruct (p x) eqn:Hx; simpl; [|done]. by rewrite Hx, IH.
Qed.

(** The negation of a [Conditional] predicate is the [Conditional] of the
    negated branches under the same validator: [reject] with the one is
    [filter] with the other. *)
Theorem reject_Conditional cont (v p q : T → bool) σ :
  fff.reject cont (lab.Conditional v p q) σ
  = fff.filter cont
      (lab.Conditional v (impl.not_fn p) (impl.not_fn q)) σ.
Proof.
  unfold fff.reject, fff.filter, impl.Reject, impl.Filter.
  rewrite (Filter_for_ext
             (impl.not_fn (lab.Conditional v p q))
             (lab.Conditional v (impl.not_fn p) (impl.not_fn q))); [done|].
  intros x. unfold impl.not_fn, lab.Conditional. by destruct (v x).
Qed.

End filter_more.

Section filter_map.
Context {T U : Type} `{!impl.DefaultConstructible U}.
Context `{CT : !impl.Cont_template T} `{CU : !impl.Cont_template U}.

(** Selecting among images is taking the images of what their originals
    select. *)
Lemma List_filter_fmap (f : T → U) (p : U → bool) (c : list T) :
  List.filter p (f <$> c) = f <$> List.filter (λ x, p (f x)) c.
Proof.
  induction c as [|x c IH]; csimpl; [done|].
  destruct (p (f x)); csimpl; by rewrite IH.
Qed.

(** On container types with [push_back], filtering by [p] the result of
    mapping [f], kept at an address [l], gives what mapping [f] over the
    result of filtering the input by [p] after [f], kept at an address
    [k], gives. *)
Theorem filter_map_commute cont l k (f : T → U) (p : U → bool)
    (σ σ1 : impl.store T) (τ : impl.store U) :
  @impl.BackPushable T CT = true → @impl.BackPushable U CU = true →
  ∃ mapped selected ret,
    fff.map cont f σ = Some (impl.Val mapped, σ)
    ∧ fff.filter l p (<[l := mapped]> τ)
      = Some (impl.Val ret, <[l := mapped]> τ)
    ∧ fff.filter cont (λ x, p (f x)) σ = Some (impl.Val selected, σ)
    ∧ fff.map k f (<[k := selected]> σ1)
      = Some (impl.Val ret, <[k := selected]> σ1).
Proof.
  intros HT HU. unfold fff.map, fff.filter, impl.Filter, impl.NewCont.
  exists (f <$> σ cont), (List.filter (λ x, p (f x)) (σ cont)),
    (List.filter p (f <$> σ cont)).
  rewrite !Map_fmap, !Filter_for_push_back, !fn_lookup_insert by done.
  simpl. split_and!; [done..|].
  by rewrite List_filter_fmap.
Qed.

End filter_map.

Section quantifiers_more.
Context {T : Type}.
Implicit Types (p : T → bool) (σ : impl.store T) (c : list T).

(** Looking for an element that fails [p] is looking for one that
    satisfies its negation. *)
Lemma LogicMake_for_not_fn ret p c :
  impl.LogicMake_for false ret p c
  = impl.LogicMake_for true ret (impl.not_fn p) c.
Proof.
  induction c as [|v c IH]; simpl; [done|].
  unfold impl.not_fn at 1. by destruct (p v); simpl.
Qed.

(** [every(c, p)] is [none(c, std::not_fn(p))], and
    [some(c, std::not_fn(p))] is the negation of [every(c, p)]. *)
Theorem every_none_not_fn cont p σ :
  fff.every cont p σ = fff.none cont (impl.not_fn p) σ
  ∧ ∃ e, fff.every cont p σ = (impl.Val e, σ)
         ∧ fff.some cont (impl.not_fn p) σ = (impl.Val (negb e), σ).
Proof.
  unfold fff.every, fff.none, fff.some, impl.LogicMake.
  rewrite LogicMake_for_not_fn. split; [done|].
  eexists. split; [done|].
  by rewrite <- (LogicMake_for_negb true false).
Qed.

(** On a container type with [push_back], [some(c, p)] holds exactly when
    [filter(c, p)] is not empty, [none(c, p)] exactly when it is empty, and
    [every(c, p)] exactly when [reject(c, p)] is empty. *)
Theorem quantifiers_by_filter `{!impl.Cont_template T} cont p σ :
  impl.BackPushable = true →
  ∃ yes no s e n,
    fff.filter cont p σ = Some (impl.Val yes, σ)
    ∧ fff.reject cont p σ = Some (impl.Val no, σ)
    ∧ fff.some cont p σ = (impl.Val s, σ)
    ∧ fff.every cont p σ = (impl.Val e, σ)
    ∧ fff.none cont p σ = (impl.Val n, σ)
    ∧ (s = true ↔ yes ≠ [])
    ∧ (n = true ↔ yes = [])
    ∧ (e = true ↔ no = []).
Proof.
  intros Hpb.
  destruct (quantifiers_correct cont p σ)
    as (s & e & n & Hs & He & Hn & Hsome & Hevery & Hnone & _).
  exists (List.filter p (σ cont)), (List.filter (impl.not_fn p) (σ cont)),
    s, e, n.
  assert (s = true ↔ List.filter p (σ cont) ≠ []) as Hyes.
  { rewrite Hsome. split.
    - intros (x & Hx & Hp) Hnil.
      assert (x ∈ List.filter p (σ cont)) as Hin
        by by apply elem_of_List_filter.
      rewrite Hnil in Hin. by apply elem_of_nil in Hin.
    - destruct (List.filter p (σ cont)) as [|x l] eqn:Hl; [done|]. intros _.
      exists x. apply elem_of_List_filter. rewrite Hl. by left. }
  unfold fff.filter, fff.reject, impl.Reject, impl.Filter, impl.NewCont.
  rewrite !Filter_for_push_back by done. simpl.
  split_and!; [done..| |].
  - rewrite Hnone. destruct s; simpl.
    + split; [done|]. intros Hnil. by apply Hyes in Hnil.
    + split; [|done]. intros _.
      destruct (List.filter p (σ cont)) as [|x l]; [done|].
      by assert (false = true) by by apply Hyes.
  - rewrite Hevery. split.
    + intros Hall.
      destruct (List.filter (impl.not_fn p) (σ cont)) as [|x l] eqn:Hl; [done|].
      assert (x ∈ List.filter (impl.not_fn p) (σ cont)) as Hin
        by (rewrite Hl; by left).
      apply elem_of_List_filter in Hin as [Hx Hp].
      unfold impl.not_fn in Hp. rewrite (Hall x Hx) in Hp. done.
    + intros Hnil x Hx. destruct (p x) eqn:Hp; [done|].
      assert (x ∈ List.filter (impl.not_fn p) (σ cont)) as Hin.
      { apply elem_of_List_filter. unfold impl.not_fn. by rewrite Hp. }
      rewrite Hnil in Hin. by apply elem_of_nil in Hin.
Qed.

(** On a container type with [push_back], with the predicate that always
    answers true, [filter] and [FilterWith] return a container equal to the
    input and [reject] an empty one; [every] holds, [some] holds exactly on
    a container that is not empty and [none] exactly on an empty one. *)
Theorem always_positive_selects_all `{!impl.Cont_template T} cont σ :
  impl.BackPushable = true →
  fff.filter cont fff.always_positive σ = Some (impl.Val (σ cont), σ)
  ∧ impl.FilterWith fff.always_positive cont σ = Some (impl.Val (σ cont), σ)
  ∧ fff.reject cont fff.always_positive σ = Some (impl.Val [], σ)
  ∧ fff.every cont fff.always_positive σ = (impl.Val true, σ)
  ∧ fff.some cont fff.always_positive σ
    = (impl.Val (bool_decide (σ cont ≠ [])), σ)
  ∧ fff.none cont fff.always_positive σ
    = (impl.Val (bool_decide (σ cont = [])), σ).
Proof.
  intros Hpb.
  unfold impl.FilterWith, fff.filter, fff.reject, impl.Reject, impl.Filter,
    impl.NewCont, fff.every, fff.some, fff.none, impl.LogicMake.
  rewrite !Filter_for_push_back by done. simpl.
  assert (List.filter fff.always_positive (σ cont) = σ cont) as ->.
  { induction (σ cont) as [|x c IH]; simpl; [done|]. by rewrite IH. }
  assert (List.filter (impl.not_fn fff.always_positive) (σ cont) = []) as ->.
  { induction (σ cont) as [|x c IH]; simpl; done. }
  split_and!; [done..| | |].
  - do 2 f_equal. induction (σ cont) as [|x c IH]; simpl; done.
  - by destruct (σ cont).
  - by destruct (σ cont).
Qed.

End quantifiers_more.

Section each_more.
Context {T : Type}.
Implicit Types (σ : impl.store T).


(** [each] with [Noop] leaves every container as it is. *)
Theorem each_Noop cont σ :
  ∀ l, (fff.each cont (λ x, (x, elem.Noop [x])) σ).2 l = σ l.
Proof.
  intros l. unfold fff.each, impl.Each. simpl.
  destruct (decide (cont = l)) as [->|Hl].
  - rewrite fn_lookup_insert, for_each_fmap. simpl. apply list_fmap_id.
  - by rewrite fn_lookup_insert_ne.
Qed.

End each_more.

(** ** The further properties on [std::vector<unsigned>] *)

(** [PushExecution_appends] on a [std::vector] that holds [9] already. *)
Lemma PushExecution_appends_witness :
  @impl.PushExecution nat (std.vector nat) [9] [1; 2; 3; 4] std.is_even
  = Some [9; 2; 4].
Proof.
  exact (@PushExecution_appends nat (std.vector nat) std.is_even [9]
           [1; 2; 3; 4] eq_refl).
Defined.

(** [filter_elements] on a [std::vector] holding [7, 7] with the test for
    being odd: both are kept. *)
Lemma filter_elements_witness :
  (∃ ret, @fff.filter nat (std.vector nat) 1 Nat.odd std.two_containers
          = Some (impl.Val ret, std.two_containers)
          ∧ ret = List.filter Nat.odd [7; 7]
          ∧ ∀ counted : nat → bool,
              length (List.filter counted ret)
              = length (List.filter (λ x, Nat.odd x && counted x) [7; 7]))
  ∧ @fff.filter nat (std.vector nat) 1 Nat.odd std.two_containers
    = Some (impl.Val [7; 7], std.two_containers).
Proof.
  split; [|reflexivity].
  exact (@filter_elements nat (std.vector nat) 1 Nat.odd std.two_containers
           eq_refl).
Defined.

(** [filter_filter] on a [std::vector] holding [1, 2, 3, 4]: the even
    elements, then those of them above [2]. *)
Lemma filter_filter_witness :
  ∃ ret ret',
    @fff.filter nat (std.vector nat) 0 std.is_even std.two_containers
    = Some (impl.Val ret, std.two_containers)
    ∧ @fff.filter nat (std.vector nat) 1 (λ x, 2 <? x)
        (<[1 := ret]> std.two_containers)
      = Some (impl.Val ret', <[1 := ret]> std.two_containers)
    ∧ @fff.filter nat (std.vector nat) 0 (λ x, std.is_even x && (2 <? x))
        std.two_containers
      = Some (impl.Val ret', std.two_containers)
    ∧ @fff.filter nat (std.vector nat) 1 std.is_even
        (<[1 := ret]> std.two_containers)
      = Some (impl.Val ret, <[1 := ret]> std.two_containers).
Proof.
  exact (@filter_filter nat (std.vector nat) 0 1 std.is_even (λ x, 2 <? x)
           std.two_containers std.two_containers eq_refl).
Defined.

(** [filter_map_commute] on a [std::vector] holding [1, 2, 3, 4], with
    doubling and the test for being above [4]. *)
Lemma filter_map_commute_witness :
  ∃ mapped selected ret,
    @fff.map nat nat std.unsigned_default 0 std.twice std.two_containers
    = Some (impl.Val mapped, std.two_containers)
    ∧ @fff.filter nat (std.vector nat) 1 (λ x, 4 <? x)
        (<[1 := mapped]> std.two_containers)
      = Some (impl.Val ret, <[1 := mapped]> std.two_containers)
    ∧ @fff.filter nat (std.vector nat) 0 (λ x, 4 <? std.twice x)
        std.two_containers
      = Some (impl.Val selected, std.two_containers)
    ∧ @fff.map nat nat std.unsigned_default 1 std.twice
        (<[1 := selected]> std.two_containers)
      = Some (impl.Val ret, <[1 := selected]> std.two_containers).
Proof.
  exact (@filter_map_commute nat nat std.unsigned_default (std.vector nat)
           (std.vector nat) 0 1 1 std.twice (λ x, 4 <? x)
           std.two_containers std.two_containers std.two_containers
           eq_refl eq_refl).
Defined.

(** [quantifiers_by_filter] on a [std::vector] holding [1, 2, 3, 4]. *)
Lemma quantifiers_by_filter_witness :
  ∃ yes no s e n,
    @fff.filter nat (std.vector nat) 0 std.is_even std.two_containers
    = Some (impl.Val yes, std.two_containers)
    ∧ @fff.reject nat (std.vector nat) 0 std.is_even std.two_containers
      = Some (impl.Val no, std.two_containers)
    ∧ fff.some 0 std.is_even std.two_containers
      = (impl.Val s, std.two_containers)
    ∧ fff.every 0 std.is_even std.two_containers
      = (impl.Val e, std.two_containers)
    ∧ fff.none 0 std.is_even std.two_containers
      = (impl.Val n, std.two_containers)
    ∧ (s = true ↔ yes ≠ [])
    ∧ (n = true ↔ yes = [])
    ∧ (e = true ↔ no = []).
Proof.
  exact (@quantifiers_by_filter nat (std.vector nat) 0 std.is_even
           std.two_containers eq_refl).
Defined.

(** [always_positive_selects_all] on a [std::vector] holding
    [1, 2, 3, 4]. *)
Lemma always_positive_selects_all_witness :
  let σ := std.two_containers in
  @fff.filter nat (std.vector nat) 0 fff.always_positive σ
  = Some (impl.Val [1; 2; 3; 4], σ)
  ∧ @impl.FilterWith nat (std.vector nat) fff.always_positive 0 σ
    = Some (impl.Val [1; 2; 3; 4], σ)
  ∧ @fff.reject nat (std.vector nat) 0 fff.always_positive σ
    = Some (impl.Val [], σ)
  ∧ fff.every 0 fff.always_positive σ = (impl.Val true, σ)
  ∧ fff.some 0 fff.always_positive σ
    = (impl.Val (bool_decide (σ 0 ≠ [])), σ)
  ∧ fff.none 0 fff.always_positive σ
    = (impl.Val (bool_decide (σ 0 = [])), σ).
Proof.
  exact (@always_positive_selects_all nat (std.vector nat) 0
           std.two_containers eq_refl).
Defined.
